(** * UartClass: the buffered, interrupt-driven USART driver of the megaAVR core

    A shallow embedding of [cores/arduino/UART.cpp] (with the interrupt
    vectors of [UART2.cpp]) and the properties of its transmit engine:
    the ring buffer shared between [write] and the data-register-empty
    handler, the fast path, the manual poll, [flush], [end] and [begin]. *)

From Stdlib Require Import ZArith List Bool Lia Btauto QArith Qround Qfield.
Import ListNotations.
Local Open Scope Z_scope.

(** ** Machine integers

    avr-gcc: [int] is 16 bits, [long] and [int32_t] are 32 bits; the USART
    registers are 8 bits wide except [BAUD], which is 16 bits wide. *)

Definition wrap (w x : Z) : Z := x mod 2 ^ w.
Definition swrap (w x : Z) : Z := (x + 2 ^ (w - 1)) mod 2 ^ w - 2 ^ (w - 1).

Definition u8 := wrap 8.
Definition u16 := wrap 16.
Definition u32 := wrap 32.
Definition int8 := swrap 8.
Definition int16 := swrap 16.
Definition int32 := swrap 32.

(** C truth value of [reg & mask]. *)
Definition bit_is_set (reg mask : Z) : bool := negb (Z.land reg mask =? 0).

(** ** Bit masks of the USART register block

    The values of the device header ([avr/io.h], megaAVR 0-series) that
    [UART.cpp] names. *)

Definition USART_RXCIE_bm := 0x80.   (* CTRLA: receive complete interrupt enable *)
Definition USART_DREIE_bm := 0x20.   (* CTRLA: data register empty interrupt enable *)
Definition USART_RXEN_bm := 0x80.    (* CTRLB: receiver enable *)
Definition USART_TXEN_bm := 0x40.    (* CTRLB: transmitter enable *)
Definition USART_RXMODE_NORMAL_gc := Z.shiftl 0x00 1.
Definition USART_RXMODE_CLK2X_gc := Z.shiftl 0x01 1.
Definition USART_TXCIF_bm := 0x40.   (* STATUS: transmit complete flag *)
Definition USART_DREIF_bm := 0x20.   (* STATUS: data register empty flag *)

(** ** Data model *)

(** The register block [USART_t] behind [_hwserial_module].  [tx_wire] is
    a ghost field: the bytes stored to [TXDATAL] so far, oldest first. *)
Record USART_t := mkUSART {
  CTRLA : Z;
  CTRLB : Z;
  CTRLC : Z;
  STATUS : Z;
  BAUD : Z;
  TXDATAL : Z;
  tx_wire : list Z
}.

(** The fields of [UartClass]; the object owns its register block. *)
Record UartClass := mkUart {
  _hwserial_module : USART_t;
  _hwserial_rx_pin : Z;
  _hwserial_tx_pin : Z;
  _uart_mux : Z;
  _written : bool;
  _rx_buffer_head : Z;
  _rx_buffer_tail : Z;
  _tx_buffer_head : Z;
  _tx_buffer_tail : Z;
  _rx_buffer : list Z;
  _tx_buffer : list Z
}.

(** Calls into the wiring layer ([pinMode], [digitalWrite]) are recorded,
    not interpreted. *)
Inductive PinMode := INPUT | OUTPUT | INPUT_PULLUP.
Inductive PinStatus := LOW | HIGH.
Inductive pin_call :=
  | Call_pinMode (pin : Z) (mode : PinMode)
  | Call_digitalWrite (pin : Z) (val : PinStatus).

(** What [begin] touches besides the object: the port multiplexer, the
    signature row and the pins. *)
Record Board := mkBoard {
  Serial : UartClass;
  PORTMUX_USARTROUTEA : Z;
  SIGROW_OSC16ERR5V : Z;
  pin_calls : list pin_call
}.

(** *** Field updates *)

Definition set_CTRLA (v : Z) (m : USART_t) : USART_t :=
  mkUSART v (CTRLB m) (CTRLC m) (STATUS m) (BAUD m) (TXDATAL m) (tx_wire m).
Definition set_CTRLB (v : Z) (m : USART_t) : USART_t :=
  mkUSART (CTRLA m) v (CTRLC m) (STATUS m) (BAUD m) (TXDATAL m) (tx_wire m).
Definition set_CTRLC (v : Z) (m : USART_t) : USART_t :=
  mkUSART (CTRLA m) (CTRLB m) v (STATUS m) (BAUD m) (TXDATAL m) (tx_wire m).
Definition set_STATUS (v : Z) (m : USART_t) : USART_t :=
  mkUSART (CTRLA m) (CTRLB m) (CTRLC m) v (BAUD m) (TXDATAL m) (tx_wire m).
Definition set_BAUD (v : Z) (m : USART_t) : USART_t :=
  mkUSART (CTRLA m) (CTRLB m) (CTRLC m) (STATUS m) v (TXDATAL m) (tx_wire m).

Definition with_module (f : USART_t -> USART_t) (t : UartClass) : UartClass :=
  mkUart (f (_hwserial_module t)) (_hwserial_rx_pin t) (_hwserial_tx_pin t)
         (_uart_mux t) (_written t) (_rx_buffer_head t) (_rx_buffer_tail t)
         (_tx_buffer_head t) (_tx_buffer_tail t) (_rx_buffer t) (_tx_buffer t).
Definition set_written (b : bool) (t : UartClass) : UartClass :=
  mkUart (_hwserial_module t) (_hwserial_rx_pin t) (_hwserial_tx_pin t)
         (_uart_mux t) b (_rx_buffer_head t) (_rx_buffer_tail t)
         (_tx_buffer_head t) (_tx_buffer_tail t) (_rx_buffer t) (_tx_buffer t).
Definition set_rx_buffer_head (v : Z) (t : UartClass) : UartClass :=
  mkUart (_hwserial_module t) (_hwserial_rx_pin t) (_hwserial_tx_pin t)
         (_uart_mux t) (_written t) v (_rx_buffer_tail t)
         (_tx_buffer_head t) (_tx_buffer_tail t) (_rx_buffer t) (_tx_buffer t).
Definition set_tx_buffer_head (v : Z) (t : UartClass) : UartClass :=
  mkUart (_hwserial_module t) (_hwserial_rx_pin t) (_hwserial_tx_pin t)
         (_uart_mux t) (_written t) (_rx_buffer_head t) (_rx_buffer_tail t)
         v (_tx_buffer_tail t) (_rx_buffer t) (_tx_buffer t).
Definition set_tx_buffer_tail (v : Z) (t : UartClass) : UartClass :=
  mkUart (_hwserial_module t) (_hwserial_rx_pin t) (_hwserial_tx_pin t)
         (_uart_mux t) (_written t) (_rx_buffer_head t) (_rx_buffer_tail t)
         (_tx_buffer_head t) v (_rx_buffer t) (_tx_buffer t).
Definition set_rx_buffer_tail (v : Z) (t : UartClass) : UartClass :=
  mkUart (_hwserial_module t) (_hwserial_rx_pin t) (_hwserial_tx_pin t)
         (_uart_mux t) (_written t) (_rx_buffer_head t) v
         (_tx_buffer_head t) (_tx_buffer_tail t) (_rx_buffer t) (_tx_buffer t).
Definition set_rx_buffer (l : list Z) (t : UartClass) : UartClass :=
  mkUart (_hwserial_module t) (_hwserial_rx_pin t) (_hwserial_tx_pin t)
         (_uart_mux t) (_written t) (_rx_buffer_head t) (_rx_buffer_tail t)
         (_tx_buffer_head t) (_tx_buffer_tail t) l (_tx_buffer t).
Definition set_tx_buffer (l : list Z) (t : UartClass) : UartClass :=
  mkUart (_hwserial_module t) (_hwserial_rx_pin t) (_hwserial_tx_pin t)
         (_uart_mux t) (_written t) (_rx_buffer_head t) (_rx_buffer_tail t)
         (_tx_buffer_head t) (_tx_buffer_tail t) (_rx_buffer t) l.

Definition set_Serial (t : UartClass) (b : Board) : Board :=
  mkBoard t (PORTMUX_USARTROUTEA b) (SIGROW_OSC16ERR5V b) (pin_calls b).
Definition set_USARTROUTEA (v : Z) (b : Board) : Board :=
  mkBoard (Serial b) v (SIGROW_OSC16ERR5V b) (pin_calls b).
Definition call_pin (c : pin_call) (b : Board) : Board :=
  mkBoard (Serial b) (PORTMUX_USARTROUTEA b) (SIGROW_OSC16ERR5V b)
          (pin_calls b ++ [c]).

(** Array read and array store at a C index. *)
Definition array_get (a : list Z) (i : Z) : Z := nth (Z.to_nat i) a 0.

Fixpoint list_set (a : list Z) (n : nat) (v : Z) : list Z :=
  match a, n with
  | [], _ => []
  | _ :: r, O => v :: r
  | x :: r, S k => x :: list_set r k v
  end.

Definition array_set (a : list Z) (i v : Z) : list Z := list_set a (Z.to_nat i) v.

(** *** Register accesses with a hardware side effect

    Storing to [TXDATAL] fills the transmit data register, so the
    data-register-empty flag drops until the hardware has moved the byte
    on.  In [STATUS] the transmit-complete flag "can be cleared by writing
    a one to its bit location"; the data-register-empty flag is owned by
    the hardware and a store does not change it. *)

Definition store_TXDATAL (c : Z) (m : USART_t) : USART_t :=
  mkUSART (CTRLA m) (CTRLB m) (CTRLC m)
          (u8 (Z.land (STATUS m) (Z.lnot USART_DREIF_bm)))
          (BAUD m) c (tx_wire m ++ [c]).

Definition store_STATUS (v : Z) (m : USART_t) : USART_t :=
  set_STATUS (u8 (Z.land (STATUS m) (Z.lnot (Z.land v USART_TXCIF_bm)))) m.

(** Accessors used throughout. *)
Definition DREIE (t : UartClass) : bool :=
  bit_is_set (CTRLA (_hwserial_module t)) USART_DREIE_bm.
Definition DREIF (t : UartClass) : bool :=
  bit_is_set (STATUS (_hwserial_module t)) USART_DREIF_bm.
Definition TXCIF (t : UartClass) : bool :=
  bit_is_set (STATUS (_hwserial_module t)) USART_TXCIF_bm.

(** ** The engine

    [SERIAL_TX_BUFFER_SIZE], [SERIAL_RX_BUFFER_SIZE] (set in [UART.h]) and
    [F_CPU] (set by the build) are configuration macros; the engine is
    parametric in them. *)

Section Engine.

Variable SERIAL_TX_BUFFER_SIZE : Z.
Variable SERIAL_RX_BUFFER_SIZE : Z.
Variable F_CPU : Z.

(** [tx_buffer_index_t] and [rx_buffer_index_t]: [uint8_t] unless the
    buffer has more than 256 slots, then [uint16_t]. *)
Definition tx_buffer_index_t (x : Z) : Z :=
  if 256 <? SERIAL_TX_BUFFER_SIZE then u16 x else u8 x.
Definition rx_buffer_index_t (x : Z) : Z :=
  if 256 <? SERIAL_RX_BUFFER_SIZE then u16 x else u8 x.

(** *** Interrupt handlers *)

Definition _tx_data_empty_irq (t : UartClass) : UartClass :=
  let c := array_get (_tx_buffer t) (_tx_buffer_tail t) in
  let t := set_tx_buffer_tail
             (tx_buffer_index_t ((_tx_buffer_tail t + 1) mod SERIAL_TX_BUFFER_SIZE)) t in
  let t := with_module (store_TXDATAL c) t in
  let t := with_module (store_STATUS USART_TXCIF_bm) t in
  if _tx_buffer_head t =? _tx_buffer_tail t then
    with_module (fun m => set_CTRLA (u8 (Z.land (CTRLA m) (Z.lnot USART_DREIE_bm))) m) t
  else t.

Definition _poll_tx_data_empty (t : UartClass) : UartClass :=
  if DREIE t && DREIF t then _tx_data_empty_irq t else t.

(** Modelled from the spec: the receive-complete handler
    [_rx_complete_irq] is defined in [UART_private.h], which is not among
    the sources.  "Read one byte from the hardware data register; if the
    RX buffer has a free slot, enqueue it (advance head); if full, the
    byte is silently dropped."  The byte read is the argument [c]. *)
Definition _rx_complete_irq (c : Z) (t : UartClass) : UartClass :=
  let i := rx_buffer_index_t ((_rx_buffer_head t + 1) mod SERIAL_RX_BUFFER_SIZE) in
  if negb (i =? _rx_buffer_tail t) then
    set_rx_buffer_head i
      (set_rx_buffer (array_set (_rx_buffer t) (_rx_buffer_head t) c) t)
  else t.

(** *** What happens around the caller

    Between two critical sections of the caller the transmitter and the
    interrupt system may act:
    - the transmitter moves the data register on, raising the
      data-register-empty flag;
    - the transmitter finishes a frame with nothing left in the data
      register, raising the transmit-complete flag;
    - the data-register-empty vector ([ISR(HWSERIALn_DRE_VECTOR)]) is
      taken, which the hardware does only while the interrupt is enabled
      and its flag is up;
    - the receive-complete vector is taken for an arrived byte, only
      while its interrupt is enabled. *)

Inductive env_event :=
  | HwDataRegisterEmptied
  | HwFrameComplete
  | IsrDataRegisterEmpty
  | IsrReceiveComplete (c : Z).

Definition env_apply (e : env_event) (t : UartClass) : UartClass :=
  match e with
  | HwDataRegisterEmptied =>
      with_module (fun m => set_STATUS (u8 (Z.lor (STATUS m) USART_DREIF_bm)) m) t
  | HwFrameComplete =>
      if DREIF t then
        with_module (fun m => set_STATUS (u8 (Z.lor (STATUS m) USART_TXCIF_bm)) m) t
      else t
  | IsrDataRegisterEmpty =>
      if DREIE t && DREIF t then _tx_data_empty_irq t else t
  | IsrReceiveComplete c =>
      if bit_is_set (CTRLA (_hwserial_module t)) USART_RXCIE_bm
      then _rx_complete_irq c t else t
  end.

Definition env_run (es : list env_event) (t : UartClass) : UartClass :=
  fold_left (fun t e => env_apply e t) es t.

(** A spin loop waits for the environment.  Its schedule lists, for each
    turn of the loop, what the environment does before the manual poll
    and what it does after it.  A loop that is still spinning when the
    schedule ends yields [None]. *)
Definition schedule := list (list env_event * list env_event).

Definition spin_turn (b : list env_event * list env_event) (t : UartClass) : UartClass :=
  env_run (snd b) (_poll_tx_data_empty (env_run (fst b) t)).

(** *** flush and end *)

Definition flush_waiting (t : UartClass) : bool :=
  DREIE t || negb (TXCIF t).

Fixpoint flush_spin (sched : schedule) (t : UartClass) : option UartClass :=
  if flush_waiting t then
    match sched with
    | [] => None
    | b :: rest => flush_spin rest (spin_turn b t)
    end
  else Some t.

Definition flush (sched : schedule) (t : UartClass) : option UartClass :=
  if negb (_written t) then Some t else flush_spin sched t.

Definition end_critical (t : UartClass) : UartClass :=
  let t := with_module (fun m =>
             set_CTRLB (u8 (Z.land (CTRLB m) (Z.lnot (Z.lor USART_RXEN_bm USART_TXEN_bm)))) m) t in
  let t := with_module (fun m =>
             set_CTRLA (u8 (Z.land (CTRLA m) (Z.lnot (Z.lor USART_RXCIE_bm USART_DREIE_bm)))) m) t in
  let t := set_rx_buffer_head (_rx_buffer_tail t) t in
  set_written false t.

Definition end_ (sched : schedule) (t : UartClass) : option UartClass :=
  match flush sched t with
  | Some t' => Some (end_critical t')
  | None => None
  end.

(** *** available and availableForWrite *)

Definition available (t : UartClass) : Z :=
  int16 (u16 (SERIAL_RX_BUFFER_SIZE + _rx_buffer_head t - _rx_buffer_tail t)
           mod SERIAL_RX_BUFFER_SIZE).

Definition availableForWrite (t : UartClass) : Z :=
  let head := _tx_buffer_head t in
  let tail := _tx_buffer_tail t in
  if tail <=? head then int16 (SERIAL_TX_BUFFER_SIZE - 1 - head + tail)
  else int16 (tail - head - 1).

(** *** peek and read

    Their block is a critical section only for rings of more than 256
    slots; the receive handler stores to [head] and to the slot at
    [head] alone, so running them in one step loses no interleaving. *)

Definition peek (t : UartClass) : Z :=
  if _rx_buffer_head t =? _rx_buffer_tail t then -1
  else array_get (_rx_buffer t) (_rx_buffer_tail t).

Definition read (t : UartClass) : UartClass * Z :=
  if _rx_buffer_head t =? _rx_buffer_tail t then (t, -1)
  else
    let c := array_get (_rx_buffer t) (_rx_buffer_tail t) in
    let t := set_rx_buffer_tail
               (rx_buffer_index_t
                  (rx_buffer_index_t (_rx_buffer_tail t + 1) mod SERIAL_RX_BUFFER_SIZE)) t in
    (t, c).

(** [Serial2_available] of [UART2.cpp]: [available()] converted to
    [bool]. *)
Definition Serial2_available (t : UartClass) : bool :=
  negb (available t =? 0).

(** *** write *)

(** One pass through the critical section of [write]'s loop: the new
    state, and the value returned if the pass returns. *)
Definition write_attempt (c : Z) (t : UartClass) : UartClass * option Z :=
  if negb (DREIE t) && DREIF t then
    let t := with_module (store_TXDATAL c) t in
    let t := with_module (store_STATUS USART_TXCIF_bm) t in
    let t := set_written true t in
    (t, Some 1)
  else
    let nexthead :=
      tx_buffer_index_t ((_tx_buffer_head t + 1) mod SERIAL_TX_BUFFER_SIZE) in
    if negb (nexthead =? _tx_buffer_tail t) then
      let t := set_tx_buffer (array_set (_tx_buffer t) (_tx_buffer_head t) c) t in
      let t := set_tx_buffer_head nexthead t in
      let t := with_module (fun m => set_CTRLA (u8 (Z.lor (CTRLA m) USART_DREIE_bm)) m) t in
      (t, Some 1)
    else (t, None).

Fixpoint write_spin (c : Z) (sched : schedule) (t : UartClass) : option (UartClass * Z) :=
  match write_attempt c t with
  | (t', Some r) => Some (t', r)
  | (t', None) =>
      match sched with
      | [] => None
      | b :: rest => write_spin c rest (spin_turn b t')
      end
  end.

Definition write (c : Z) (sched : schedule) (t : UartClass) : option (UartClass * Z) :=
  write_spin c sched t.

(** *** begin *)

(** [(((8 * F_CPU) / baud) + 1) / 2] in [unsigned long], stored in an
    [int32_t], then corrected by the signed calibration byte in [long]
    arithmetic.  C division truncates towards zero ([Z.quot]).  A [baud]
    of 0 divides by zero in C; here the quotient is then 0. *)
Definition baud_setting (baud : Z) (sigrow : Z) : Z :=
  let baud_setting := int32 (u32 (u32 (u32 (8 * F_CPU) / u32 baud) + 1) / 2) in
  let sigrow_val := int8 sigrow in
  int32 (baud_setting + Z.quot (int32 (baud_setting * sigrow_val)) 1024).

Definition begin_critical (baud config : Z) (b : Board) : Board :=
  let t := Serial b in
  let b := set_USARTROUTEA (u8 (Z.lor (PORTMUX_USARTROUTEA b) (_uart_mux t))) b in
  let b := call_pin (Call_pinMode (_hwserial_rx_pin t) INPUT_PULLUP) b in
  let b := call_pin (Call_digitalWrite (_hwserial_tx_pin t) HIGH) b in
  let t := with_module (fun m =>
             set_CTRLB (u8 (Z.land (CTRLB m) (Z.lnot USART_RXMODE_CLK2X_gc))) m) t in
  let t := with_module (fun m =>
             set_CTRLB (u8 (Z.lor (CTRLB m) USART_RXMODE_NORMAL_gc)) m) t in
  let t := with_module
             (set_BAUD (u16 (int16 (baud_setting baud (SIGROW_OSC16ERR5V b))))) t in
  let t := with_module (set_CTRLC (u8 config)) t in
  let t := with_module (fun m =>
             set_CTRLB (u8 (Z.lor (CTRLB m) (Z.lor USART_RXEN_bm USART_TXEN_bm))) m) t in
  let t := with_module (fun m =>
             set_CTRLA (u8 (Z.lor (CTRLA m) USART_RXCIE_bm)) m) t in
  let b := set_Serial t b in
  call_pin (Call_pinMode (_hwserial_tx_pin t) OUTPUT) b.

Definition begin (sched : schedule) (baud config : Z) (b : Board) : option Board :=
  if _written (Serial b) then
    match end_ sched (Serial b) with
    | Some t => Some (begin_critical baud config (set_Serial (set_written false t) b))
    | None => None
    end
  else Some (begin_critical baud config b).

End Engine.

(** ** Construction and sample states *)

(** The register block after reset: nothing enabled, the transmit data
    register empty (its flag up), nothing transmitted yet. *)
Definition USART_reset : USART_t :=
  mkUSART 0 0 0x03 USART_DREIF_bm 0 0 [].

(** Modelled from the spec: the constructor of [UartClass] is defined in
    [UART_private.h], which is not among the sources.  The engine is
    "created once per physical port at process start with static
    lifetime", initially Disabled.  A statically allocated object starts
    zeroed: both rings empty ([head = tail = 0]) and [everWritten]
    false. *)
Definition UartClass_new (tx_size rx_size : Z) (rx_pin tx_pin uart_mux : Z) : UartClass :=
  mkUart USART_reset rx_pin tx_pin uart_mux false 0 0 0 0
         (repeat 0 (Z.to_nat rx_size)) (repeat 0 (Z.to_nat tx_size)).

Definition Board_new (tx_size rx_size : Z) (rx_pin tx_pin uart_mux : Z) (osc_err : Z) : Board :=
  mkBoard (UartClass_new tx_size rx_size rx_pin tx_pin uart_mux) 0 osc_err [].

(** The bytes queued in the TX ring, oldest first: the slots from [tail]
    up to, not including, [head]. *)
Definition tx_used (N : Z) (t : UartClass) : Z :=
  (N + _tx_buffer_head t - _tx_buffer_tail t) mod N.

Definition tx_queue (N : Z) (t : UartClass) : list Z :=
  map (fun k => array_get (_tx_buffer t) ((_tx_buffer_tail t + Z.of_nat k) mod N))
      (seq 0 (Z.to_nat (tx_used N t))).

(** The divisor as the specification words it: [(8 * clock) / baud / 2]
    over the rationals, rounded to the nearest integer (halves go up). *)
Definition spec_divisor (clock baud : Z) : Z :=
  Qfloor (inject_Z (8 * clock) / inject_Z baud / inject_Z 2 + (1 # 2))%Q.

Definition spec_baud_register (clock baud trim : Z) : Z :=
  let divisor := spec_divisor clock baud in
  divisor + Z.quot (divisor * trim) 1024.

(** *** A small port, used to run the engine on concrete inputs

    Rings of four slots, a 16 MHz clock, frame format 8N1 ([0x03]),
    no calibration error. *)

Definition drain_turn : list env_event * list env_event :=
  ([HwDataRegisterEmptied; HwFrameComplete], []).

Definition board_new : Board := Board_new 4 4 0 1 0 0.

Definition board_begun : Board :=
  Eval vm_compute in begin_critical 16000000 9600 0x03 board_new.

Definition port_begun : UartClass := Serial board_begun.

(** After [write('A')]: the byte went straight to the data register. *)
Definition port_A : UartClass :=
  Eval vm_compute in fst (write_attempt 4 65 port_begun).

(** After [write('B')] with the data register still occupied: one byte
    queued. *)
Definition port_AB : UartClass :=
  Eval vm_compute in fst (write_attempt 4 66 port_A).

(** After [write('C')] and [write('D')]: the ring is full. *)
Definition port_ABCD : UartClass :=
  Eval vm_compute in fst (write_attempt 4 68 (fst (write_attempt 4 67 port_AB))).

(** [port_AB] once the transmitter has freed the data register. *)
Definition port_AB_ready : UartClass :=
  Eval vm_compute in env_apply 4 4 HwDataRegisterEmptied port_AB.

(** [port_AB] after a [flush] during which the transmitter drains. *)
Definition port_AB_flushed : UartClass :=
  Eval vm_compute in
    match flush 4 4 [drain_turn; drain_turn] port_AB with
    | Some t => t
    | None => port_AB
    end.

(** The begun port after three bytes have arrived and none was read or
    written. *)
Definition port_rx3 : UartClass :=
  Eval vm_compute in
    env_run 4 4 [IsrReceiveComplete 1; IsrReceiveComplete 2; IsrReceiveComplete 3]
      port_begun.

Definition board_rx3 : Board := set_Serial port_rx3 board_begun.

(** [port_AB] with two unread bytes in the RX ring. *)
Definition board_AB_rx2 : Board :=
  Eval vm_compute in
    set_Serial (env_run 4 4 [IsrReceiveComplete 1; IsrReceiveComplete 2] port_AB)
      board_begun.

(** [board_AB_rx2] after a second [begin] during which the transmitter
    drains. *)
Definition board_AB_rx2_rebegun : Board :=
  Eval vm_compute in
    match begin 4 4 16000000 [drain_turn; drain_turn] 9600 0x03 board_AB_rx2 with
    | Some b => b
    | None => board_AB_rx2
    end.

(** A board whose oscillator calibration byte reads [0xFF], that is -1. *)
Definition board_trimmed : Board := Board_new 4 4 0 1 0 255.

(** [port_AB] after [write('C')]. *)
Definition port_ABC : UartClass :=
  Eval vm_compute in fst (write_attempt 4 67 port_AB).

(** [board_AB_rx2]'s port after [end] during which the transmitter
    drains. *)
Definition port_AB_rx2_ended : UartClass :=
  Eval vm_compute in
    match end_ 4 4 [drain_turn; drain_turn] (Serial board_AB_rx2) with
    | Some t => t
    | None => Serial board_AB_rx2
    end.

(** A begun port whose data register was loaded by someone else: nothing
    written through the driver, data-register-empty flag down. *)
Definition port_busy_unwritten : UartClass :=
  with_module (set_STATUS 0) port_begun.

(** *** The invariant of the transmit engine

    The indices stay inside the ring; the data-register-empty interrupt
    is enabled exactly while bytes are queued; as long as nothing was
    written the ring is empty and the data register is free; and the
    transmit-complete flag is only up while the data register is free. *)

Definition tx_indices_ok (N : Z) (t : UartClass) : Prop :=
  0 <= _tx_buffer_head t < N /\ 0 <= _tx_buffer_tail t < N.

Definition tx_inv (N : Z) (t : UartClass) : Prop :=
  tx_indices_ok N t /\
  DREIE t = negb (_tx_buffer_head t =? _tx_buffer_tail t) /\
  (_written t = false -> _tx_buffer_head t = _tx_buffer_tail t /\ DREIF t = true) /\
  (TXCIF t = true -> DREIF t = true).

(** The half of the invariant that [flush] and the manual poll rely on:
    queued bytes keep the data-register-empty interrupt enabled. *)
Definition tx_armed (t : UartClass) : Prop :=
  _tx_buffer_head t <> _tx_buffer_tail t -> DREIE t = true.

(** The states a port can be in: it is constructed and begun, and from
    then on the caller uses [write], the manual poll, [flush], [end] and
    [begin] while the environment acts in between (the transmitter, and
    the interrupt vectors that run [_tx_data_empty_irq] and
    [_rx_complete_irq]).  [_tx_data_empty_irq] runs as the handler of the
    data-register-empty interrupt, that is, while that interrupt is
    enabled and its flag is up. *)
Inductive reachable (N M F : Z) : UartClass -> Prop :=
  | reach_fresh rx_pin tx_pin mux osc_err sched baud config b' :
      begin N M F sched baud config (Board_new N M rx_pin tx_pin mux osc_err) = Some b' ->
      reachable N M F (Serial b')
  | reach_write t c sched t' r :
      reachable N M F t -> write N M c sched t = Some (t', r) ->
      reachable N M F t'
  | reach_irq t :
      reachable N M F t -> DREIE t = true -> DREIF t = true ->
      reachable N M F (_tx_data_empty_irq N t)
  | reach_poll t :
      reachable N M F t -> reachable N M F (_poll_tx_data_empty N t)
  | reach_env t e :
      reachable N M F t -> reachable N M F (env_apply N M e t)
  | reach_flush t sched t' :
      reachable N M F t -> flush N M sched t = Some t' ->
      reachable N M F t'
  | reach_end t sched t' :
      reachable N M F t -> end_ N M sched t = Some t' ->
      reachable N M F t'
  | reach_begin b sched baud config b' :
      reachable N M F (Serial b) -> begin N M F sched baud config b = Some b' ->
      reachable N M F (Serial b').

(** *** serialEventRun

    A port takes part when its [HAVE_HWSERIALn] macro is defined.  Its
    two hooks are weak symbols: an unresolved one has address 0 ([None])
    and is never called.  [W] is whatever the sketch's handlers act on. *)

Record serial_hook (W : Type) := mkHook {
  HAVE_HWSERIAL : bool;
  hook_available : option (W -> bool);
  hook_serialEvent : option (W -> W)
}.
Arguments mkHook {W}.
Arguments HAVE_HWSERIAL {W}.
Arguments hook_available {W}.
Arguments hook_serialEvent {W}.

Definition serialEvent_step {W : Type} (h : serial_hook W) (w : W) : W :=
  if HAVE_HWSERIAL h then
    match hook_available h, hook_serialEvent h with
    | Some available_n, Some serialEvent_n =>
        if available_n w then serialEvent_n w else w
    | _, _ => w
    end
  else w.

Definition serialEventRun {W : Type} (h0 h1 h2 h3 : serial_hook W) (w : W) : W :=
  let w := serialEvent_step h0 w in
  let w := serialEvent_step h1 w in
  let w := serialEvent_step h2 w in
  serialEvent_step h3 w.

(** The hooks of a sketch that uses [Serial2] alone and reads one byte
    in [serialEvent2]; the other ports are not compiled in. *)
Definition hook_absent : serial_hook UartClass := mkHook false None None.
Definition hook_Serial2 : serial_hook UartClass :=
  mkHook true (Some (Serial2_available 4)) (Some (fun t => fst (read 4 t))).

(** *** The receive ring and the transmit stream *)

Definition rx_indices_ok (M : Z) (t : UartClass) : Prop :=
  0 <= _rx_buffer_head t < M /\ 0 <= _rx_buffer_tail t < M.

Definition rx_used (M : Z) (t : UartClass) : Z :=
  (M + _rx_buffer_head t - _rx_buffer_tail t) mod M.

(** The contents of an [unsigned char] array. *)
Definition bytes (a : list Z) : Prop := Forall (fun b => 0 <= b <= 255) a.

(** The unread bytes, oldest first. *)
Definition rx_queue (M : Z) (t : UartClass) : list Z :=
  map (fun k => array_get (_rx_buffer t) ((_rx_buffer_tail t + Z.of_nat k) mod M))
      (seq 0 (Z.to_nat (rx_used M t))).

(** [n] calls of [read] in a row: the final state and the values
    returned, in order. *)
Fixpoint read_n (M : Z) (n : nat) (t : UartClass) : UartClass * list Z :=
  match n with
  | O => (t, [])
  | S k =>
      let (t1, c) := read M t in
      let (t2, cs) := read_n M k t1 in
      (t2, c :: cs)
  end.

(** Every byte handed to the transmitter so far, followed by the bytes
    still queued for it. *)
Definition tx_stream (N : Z) (t : UartClass) : list Z :=
  tx_wire (_hwserial_module t) ++ tx_queue N t.

(** The transmit invariant together with the size of the TX array. *)
Definition tx_wf (N : Z) (t : UartClass) : Prop :=
  tx_inv N t /\ length (_tx_buffer t) = Z.to_nat N.


(** ** Bit-level and wrap-around facts *)

Lemma land_pow2 r k :
  0 <= k -> Z.land r (2 ^ k) = if Z.testbit r k then 2 ^ k else 0.
Proof.
  intros Hk. apply Z.bits_inj'. intros n Hn.
  rewrite Z.land_spec, Z.pow2_bits_eqb by assumption.
  destruct (Z.eqb_spec k n) as [->|Hne].
  - destruct (Z.testbit r n); simpl.
    + rewrite Z.pow2_bits_true; auto.
    + rewrite Z.bits_0; auto.
  - rewrite andb_false_r. destruct (Z.testbit r k).
    + rewrite Z.pow2_bits_false; auto.
    + rewrite Z.bits_0; auto.
Qed.

Lemma bit_is_set_pow2 r k : 0 <= k -> bit_is_set r (2 ^ k) = Z.testbit r k.
Proof.
  intros Hk. unfold bit_is_set. rewrite land_pow2 by assumption.
  destruct (Z.testbit r k); simpl; [|reflexivity].
  assert (0 < 2 ^ k) by (apply Z.pow_pos_nonneg; lia).
  destruct (Z.eqb_spec (2 ^ k) 0); [lia | reflexivity].
Qed.

Lemma testbit_u8 x k : Z.testbit (u8 x) k = (k <? 8) && Z.testbit x k.
Proof. unfold u8, wrap. apply Z.testbit_mod_pow2. lia. Qed.

Lemma DREIE_testbit t : DREIE t = Z.testbit (CTRLA (_hwserial_module t)) 5.
Proof. apply (bit_is_set_pow2 _ 5). lia. Qed.

Lemma DREIF_testbit t : DREIF t = Z.testbit (STATUS (_hwserial_module t)) 5.
Proof. apply (bit_is_set_pow2 _ 5). lia. Qed.

Lemma TXCIF_testbit t : TXCIF t = Z.testbit (STATUS (_hwserial_module t)) 6.
Proof. apply (bit_is_set_pow2 _ 6). lia. Qed.

Lemma RXCIE_testbit r : bit_is_set r USART_RXCIE_bm = Z.testbit r 7.
Proof. apply (bit_is_set_pow2 _ 7). lia. Qed.

Lemma RXEN_testbit r : bit_is_set r USART_RXEN_bm = Z.testbit r 7.
Proof. apply (bit_is_set_pow2 _ 7). lia. Qed.

Lemma TXEN_testbit r : bit_is_set r USART_TXEN_bm = Z.testbit r 6.
Proof. apply (bit_is_set_pow2 _ 6). lia. Qed.

Lemma wrap_small w x : 0 <= x < 2 ^ w -> wrap w x = x.
Proof. intros. unfold wrap. apply Z.mod_small. assumption. Qed.

Lemma swrap_small w x :
  0 < w -> - 2 ^ (w - 1) <= x < 2 ^ (w - 1) -> swrap w x = x.
Proof.
  intros Hw Hx. unfold swrap.
  assert (E : 2 ^ w = 2 * 2 ^ (w - 1)).
  { replace w with (Z.succ (w - 1)) at 1 by lia. apply Z.pow_succ_r. lia. }
  rewrite Z.mod_small by lia. lia.
Qed.

Lemma u16_int16 x : u16 (int16 x) = u16 x.
Proof.
  unfold u16, int16, wrap, swrap.
  change (2 ^ (16 - 1)) with 32768. change (2 ^ 16) with 65536.
  rewrite Zminus_mod_idemp_l.
  f_equal. lia.
Qed.

(** Equality of registers, bit by bit. *)
Ltac bitwise :=
  apply Z.bits_inj'; intros ?k ?Hk;
  repeat first [ rewrite testbit_u8 | rewrite Z.lor_spec | rewrite Z.land_spec
               | rewrite Z.lnot_spec by assumption ];
  btauto.

Lemma u8_set_twice x m : u8 (Z.lor (u8 (Z.lor x m)) m) = u8 (Z.lor x m).
Proof. bitwise. Qed.

Lemma u8_clear_set_twice x c z m :
  u8 (Z.lor (u8 (Z.lor (u8 (Z.land (u8 (Z.lor (u8 (Z.lor (u8 (Z.land x (Z.lnot c))) z)) m))
                                  (Z.lnot c))) z)) m) =
  u8 (Z.lor (u8 (Z.lor (u8 (Z.land x (Z.lnot c))) z)) m).
Proof. bitwise. Qed.

(** Evaluate the bits of constant masks. *)
Ltac eval_mask_bits :=
  repeat match goal with
  | |- context [Z.testbit ?m ?k] =>
      let b := eval vm_compute in (Z.testbit m k) in
      match b with true => idtac | false => idtac end;
      change (Z.testbit m k) with b
  | |- context [Z.ltb ?m ?k] =>
      let b := eval vm_compute in (Z.ltb m k) in
      match b with true => idtac | false => idtac end;
      change (Z.ltb m k) with b
  end.

Ltac unfold_uart :=
  cbv beta iota zeta delta
    [ _tx_data_empty_irq _poll_tx_data_empty _rx_complete_irq env_apply
      end_critical write_attempt begin_critical flush_waiting spin_turn
      with_module set_written set_rx_buffer_head set_tx_buffer_head
      set_tx_buffer_tail set_rx_buffer set_tx_buffer set_Serial
      set_USARTROUTEA call_pin set_CTRLA set_CTRLB set_CTRLC set_STATUS
      set_BAUD store_TXDATAL store_STATUS
      _hwserial_module _hwserial_rx_pin _hwserial_tx_pin _uart_mux _written
      _rx_buffer_head _rx_buffer_tail _tx_buffer_head _tx_buffer_tail
      _rx_buffer _tx_buffer CTRLA CTRLB CTRLC STATUS BAUD TXDATAL tx_wire
      Serial PORTMUX_USARTROUTEA SIGROW_OSC16ERR5V pin_calls ].

Ltac flag_bits :=
  unfold_uart;
  rewrite ?DREIE_testbit, ?DREIF_testbit, ?TXCIF_testbit, ?RXCIE_testbit,
    ?RXEN_testbit, ?TXEN_testbit;
  unfold_uart;
  repeat first [ rewrite testbit_u8 | rewrite Z.lor_spec | rewrite Z.land_spec
               | rewrite Z.lnot_spec by lia ];
  eval_mask_bits;
  cbn [andb orb negb];
  rewrite ?andb_false_r, ?andb_true_r, ?orb_false_r, ?orb_true_r.


(** ** Properties of the engine *)

Section Properties.

Variable SERIAL_TX_BUFFER_SIZE : Z.
Variable SERIAL_RX_BUFFER_SIZE : Z.
Variable F_CPU : Z.

Local Abbreviation N := SERIAL_TX_BUFFER_SIZE.
Local Abbreviation M := SERIAL_RX_BUFFER_SIZE.

(** The buffer sizes are positive [int] constants. *)
Hypothesis TX_SIZE_pos : 0 < N.
Hypothesis TX_SIZE_int : N <= 32767.
Hypothesis RX_SIZE_pos : 0 < M.
Hypothesis RX_SIZE_int : M <= 32767.

Lemma tx_index_small x : 0 <= x < N -> tx_buffer_index_t N x = x.
Proof.
  intros Hx. unfold tx_buffer_index_t.
  destruct (256 <? N) eqn:E.
  - apply wrap_small. change (2 ^ 16) with 65536. lia.
  - apply Z.ltb_ge in E. apply wrap_small. change (2 ^ 8) with 256. lia.
Qed.

Lemma tx_index_next x :
  tx_buffer_index_t N ((x + 1) mod N) = (x + 1) mod N.
Proof. apply tx_index_small. apply Z.mod_pos_bound. assumption. Qed.

(** *** Effect of the data-register-empty handler, field by field *)

Lemma irq_tail t :
  _tx_buffer_tail (_tx_data_empty_irq N t) = (_tx_buffer_tail t + 1) mod N.
Proof.
  unfold _tx_data_empty_irq. rewrite tx_index_next.
  destruct t as [m ? ? ? ? ? ? h tl ? ?]. unfold_uart.
  destruct (h =? (tl + 1) mod N); reflexivity.
Qed.

Lemma irq_frame t :
  let t' := _tx_data_empty_irq N t in
  _tx_buffer_head t' = _tx_buffer_head t /\
  _tx_buffer t' = _tx_buffer t /\
  _written t' = _written t /\
  _rx_buffer_head t' = _rx_buffer_head t /\
  _rx_buffer_tail t' = _rx_buffer_tail t /\
  _rx_buffer t' = _rx_buffer t.
Proof.
  destruct t as [m ? ? ? ? ? ? h tl ? ?]. unfold_uart.
  destruct (h =? _); unfold_uart; repeat split.
Qed.

Lemma irq_data t :
  let t' := _tx_data_empty_irq N t in
  let c := array_get (_tx_buffer t) (_tx_buffer_tail t) in
  TXDATAL (_hwserial_module t') = c /\
  tx_wire (_hwserial_module t') = tx_wire (_hwserial_module t) ++ [c].
Proof.
  destruct t as [m ? ? ? ? ? ? h tl ? ?]. unfold_uart.
  destruct (h =? _); unfold_uart; split; reflexivity.
Qed.

Lemma irq_flags t :
  let t' := _tx_data_empty_irq N t in
  DREIF t' = false /\ TXCIF t' = false /\
  DREIE t' = DREIE t && negb (_tx_buffer_head t =? (_tx_buffer_tail t + 1) mod N).
Proof.
  unfold _tx_data_empty_irq. rewrite tx_index_next.
  destruct t as [[ca cb cc st bd td wire] ? ? ? ? ? ? h tl ? ?]. unfold_uart.
  destruct (h =? (tl + 1) mod N); flag_bits; auto.
Qed.

Lemma poll_cases t :
  (DREIE t = true /\ DREIF t = true /\
   _poll_tx_data_empty N t = _tx_data_empty_irq N t) \/
  (DREIE t && DREIF t = false /\ _poll_tx_data_empty N t = t).
Proof.
  unfold _poll_tx_data_empty.
  destruct (DREIE t), (DREIF t); simpl; auto.
Qed.

(** *** The invariant is kept by every step *)

Lemma inv_irq t :
  tx_inv N t -> DREIE t = true -> tx_inv N (_tx_data_empty_irq N t).
Proof.
  intros (Hok & Hie & Hw & Hc) Hen.
  destruct (irq_frame t) as (Hh & _ & Hwr & _).
  destruct (irq_flags t) as (Hf & Htc & Hd).
  pose proof (irq_tail t) as Htl.
  pose proof (Z.mod_pos_bound (_tx_buffer_tail t + 1) N TX_SIZE_pos) as Hb.
  unfold tx_inv, tx_indices_ok in *.
  rewrite Hh, Htl, Hwr, Hf, Htc, Hd, Hen. simpl.
  split; [lia|]. split; [reflexivity|]. split; [|congruence].
  intros Hnw. exfalso. apply Hw in Hnw. destruct Hnw as [E _].
  rewrite E, Z.eqb_refl in Hie. simpl in Hie. congruence.
Qed.

Lemma inv_poll t : tx_inv N t -> tx_inv N (_poll_tx_data_empty N t).
Proof.
  intros H. destruct (poll_cases t) as [(He & _ & ->) | (_ & ->)]; auto using inv_irq.
Qed.

Lemma inv_rx_irq c t : tx_inv N t -> tx_inv N (_rx_complete_irq M c t).
Proof.
  destruct t as [[ca cb cc st bd td wire] ? ? ? ? ? ? h tl ? ?].
  unfold tx_inv, tx_indices_ok, _rx_complete_irq.
  match goal with |- context [if ?c then _ else _] => destruct c end; auto.
Qed.

Lemma inv_env e t : tx_inv N t -> tx_inv N (env_apply N M e t).
Proof.
  intros H. destruct e; cbn [env_apply].
  - revert H. destruct t as [[ca cb cc st bd td wire] ? ? ? ? ? ? h tl ? ?].
    unfold tx_inv, tx_indices_ok. flag_bits. tauto.
  - destruct (DREIF t) eqn:E; [|assumption].
    revert H E. destruct t as [[ca cb cc st bd td wire] ? ? ? ? ? ? h tl ? ?].
    unfold tx_inv, tx_indices_ok. flag_bits. intros. intuition.
  - apply inv_poll in H. exact H.
  - destruct (bit_is_set _ _); auto using inv_rx_irq.
Qed.

Lemma inv_env_run es t : tx_inv N t -> tx_inv N (env_run N M es t).
Proof.
  unfold env_run. revert t.
  induction es as [|e es IH]; intros t H; simpl; auto using inv_env.
Qed.

Lemma inv_spin_turn b t : tx_inv N t -> tx_inv N (spin_turn N M b t).
Proof. intros H. unfold spin_turn. auto using inv_env_run, inv_poll. Qed.

(** *** The three outcomes of one pass of [write] *)

Lemma write_attempt_fast c t :
  DREIE t = false -> DREIF t = true ->
  exists t', write_attempt N c t = (t', Some 1) /\
    TXDATAL (_hwserial_module t') = c /\
    tx_wire (_hwserial_module t') = tx_wire (_hwserial_module t) ++ [c] /\
    _written t' = true /\
    _tx_buffer_head t' = _tx_buffer_head t /\
    _tx_buffer_tail t' = _tx_buffer_tail t /\
    _tx_buffer t' = _tx_buffer t /\
    DREIE t' = false /\ DREIF t' = false /\ TXCIF t' = false.
Proof.
  intros He Hf. unfold write_attempt. rewrite He, Hf. cbn [negb andb].
  eexists. split; [reflexivity|].
  revert He Hf. destruct t as [[ca cb cc st bd td wire] ? ? ? ? ? ? h tl ? ?].
  flag_bits. intros. repeat split; auto.
Qed.

Lemma write_attempt_buffered c t :
  negb (DREIE t) && DREIF t = false ->
  (_tx_buffer_head t + 1) mod N <> _tx_buffer_tail t ->
  exists t', write_attempt N c t = (t', Some 1) /\
    _tx_buffer t' = array_set (_tx_buffer t) (_tx_buffer_head t) c /\
    _tx_buffer_head t' = (_tx_buffer_head t + 1) mod N /\
    _tx_buffer_tail t' = _tx_buffer_tail t /\
    DREIE t' = true /\ DREIF t' = DREIF t /\ TXCIF t' = TXCIF t /\
    _written t' = _written t /\
    TXDATAL (_hwserial_module t') = TXDATAL (_hwserial_module t) /\
    tx_wire (_hwserial_module t') = tx_wire (_hwserial_module t).
Proof.
  intros Hg Hne. unfold write_attempt. rewrite Hg, tx_index_next.
  destruct (Z.eqb_spec ((_tx_buffer_head t + 1) mod N) (_tx_buffer_tail t));
    [contradiction|]. cbn [negb].
  eexists. split; [reflexivity|].
  destruct t as [[ca cb cc st bd td wire] ? ? ? ? ? ? h tl ? ?].
  flag_bits. repeat split; auto.
Qed.

Lemma write_attempt_full c t :
  negb (DREIE t) && DREIF t = false ->
  (_tx_buffer_head t + 1) mod N = _tx_buffer_tail t ->
  write_attempt N c t = (t, None).
Proof.
  intros Hg He. unfold write_attempt. rewrite Hg, tx_index_next, He, Z.eqb_refl.
  reflexivity.
Qed.

Lemma write_attempt_result c t :
  snd (write_attempt N c t) = Some 1 \/ write_attempt N c t = (t, None).
Proof.
  destruct (negb (DREIE t) && DREIF t) eqn:Hg.
  - apply andb_true_iff in Hg. destruct Hg as [He Hf].
    apply negb_true_iff in He.
    destruct (write_attempt_fast c t He Hf) as (t' & -> & _). auto.
  - destruct (Z.eq_dec ((_tx_buffer_head t + 1) mod N) (_tx_buffer_tail t)) as [E|E].
    + right. apply write_attempt_full; assumption.
    + destruct (write_attempt_buffered c t Hg E) as (t' & -> & _). auto.
Qed.

Lemma inv_write_attempt c t :
  tx_inv N t -> tx_inv N (fst (write_attempt N c t)).
Proof.
  intros (Hok & Hie & Hw & Hc).
  destruct (negb (DREIE t) && DREIF t) eqn:Hg.
  - apply andb_true_iff in Hg. destruct Hg as [He Hf].
    apply negb_true_iff in He.
    destruct (write_attempt_fast c t He Hf)
      as (t' & -> & _ & _ & Hw' & Hh & Ht & _ & He' & Hf' & Hc').
    unfold tx_inv, tx_indices_ok in *. cbn [fst].
    rewrite Hh, Ht, He', Hc', Hw'.
    split; [assumption|]. split; [congruence|]. split; intros; discriminate.
  - destruct (Z.eq_dec ((_tx_buffer_head t + 1) mod N) (_tx_buffer_tail t)) as [E|E].
    + rewrite write_attempt_full by assumption. cbn [fst]. unfold tx_inv. tauto.
    + destruct (write_attempt_buffered c t Hg E)
        as (t' & -> & _ & Hh & Ht & He' & Hf' & Hc' & Hw' & _).
      pose proof (Z.mod_pos_bound (_tx_buffer_head t + 1) N TX_SIZE_pos) as Hb.
      unfold tx_inv, tx_indices_ok in *. cbn [fst].
      rewrite Hh, Ht, He', Hf', Hc', Hw'.
      destruct (Z.eqb_spec ((_tx_buffer_head t + 1) mod N) (_tx_buffer_tail t));
        [contradiction|].
      split; [lia|]. split; [reflexivity|]. split; [|assumption].
      intros Hnw. exfalso. destruct (Hw Hnw) as [Eq Hf].
      rewrite Eq, Z.eqb_refl in Hie. cbn in Hie.
      rewrite Hie, Hf in Hg. discriminate.
Qed.

Lemma write_spin_inv c sched : forall t t' r,
  tx_inv N t -> write_spin N M c sched t = Some (t', r) ->
  tx_inv N t' /\ r = 1.
Proof.
  induction sched as [|b rest IH]; intros t t' r Hinv; cbn [write_spin];
    pose proof (inv_write_attempt c t Hinv) as Hi;
    destruct (write_attempt_result c t) as [Hr | Hr].
  - destruct (write_attempt N c t) as [t1 [r1|]]; cbn in Hr, Hi; [|discriminate].
    intros [= <- <-]. split; [assumption | congruence].
  - rewrite Hr. discriminate.
  - destruct (write_attempt N c t) as [t1 [r1|]]; cbn in Hr, Hi; [|discriminate].
    intros [= <- <-]. split; [assumption | congruence].
  - rewrite Hr. intros H. apply IH in H; auto using inv_spin_turn.
Qed.

(** *** flush, end and begin keep the invariant *)

Lemma flush_spin_inv sched : forall t t',
  tx_inv N t -> flush_spin N M sched t = Some t' ->
  tx_inv N t' /\ flush_waiting t' = false.
Proof.
  induction sched as [|b rest IH]; intros t t' Hinv; cbn [flush_spin];
    destruct (flush_waiting t) eqn:Hwt.
  - discriminate.
  - intros [= <-]. auto.
  - intros H. apply IH in H; auto using inv_spin_turn.
  - intros [= <-]. auto.
Qed.

Lemma flush_inv sched t t' :
  tx_inv N t -> flush N M sched t = Some t' ->
  tx_inv N t' /\ (_written t' = false \/ flush_waiting t' = false).
Proof.
  intros Hinv. unfold flush. destruct (_written t) eqn:Hw; cbn [negb].
  - intros H. apply flush_spin_inv in H; tauto.
  - intros [= <-]. auto.
Qed.

Lemma end_critical_effect t :
  let t' := end_critical t in
  DREIE t' = false /\ DREIF t' = DREIF t /\ TXCIF t' = TXCIF t /\
  _written t' = false /\
  _tx_buffer_head t' = _tx_buffer_head t /\
  _tx_buffer_tail t' = _tx_buffer_tail t /\
  _rx_buffer_head t' = _rx_buffer_tail t /\
  _rx_buffer_tail t' = _rx_buffer_tail t /\
  bit_is_set (CTRLB (_hwserial_module t')) USART_RXEN_bm = false /\
  bit_is_set (CTRLB (_hwserial_module t')) USART_TXEN_bm = false.
Proof.
  destruct t as [[ca cb cc st bd td wire] ? ? ? ? ? ? h tl ? ?].
  flag_bits. repeat split; auto.
Qed.

Lemma inv_end_critical t :
  tx_inv N t -> _written t = false \/ flush_waiting t = false ->
  tx_inv N (end_critical t).
Proof.
  intros (Hok & Hie & Hw & Hc) Hpre.
  destruct (end_critical_effect t) as (He & Hf & Htc & Hwr & Hh & Ht & _).
  assert (Hempty : _tx_buffer_head t = _tx_buffer_tail t /\ DREIF t = true).
  { destruct Hpre as [Hnw | Hnw]; [auto|].
    unfold flush_waiting in Hnw. apply orb_false_iff in Hnw.
    destruct Hnw as [Hd Ht']. apply negb_false_iff in Ht'.
    split; [|auto].
    rewrite Hd in Hie. symmetry in Hie. apply negb_false_iff in Hie.
    apply Z.eqb_eq. assumption. }
  destruct Hempty as [Eq Hdf].
  unfold tx_inv, tx_indices_ok in *.
  rewrite Hh, Ht, He, Hf, Htc, Hwr, Eq, Z.eqb_refl.
  repeat split; auto; lia.
Qed.

Lemma inv_end sched t t' :
  tx_inv N t -> end_ N M sched t = Some t' -> tx_inv N t'.
Proof.
  intros Hinv. unfold end_.
  destruct (flush N M sched t) as [t1|] eqn:Hfl; [|discriminate].
  intros [= <-]. apply flush_inv in Hfl; [|assumption].
  apply inv_end_critical; tauto.
Qed.

Lemma begin_critical_effect baud config b :
  let t := Serial b in
  let t' := Serial (begin_critical F_CPU baud config b) in
  DREIE t' = DREIE t /\
  STATUS (_hwserial_module t') = STATUS (_hwserial_module t) /\
  _written t' = _written t /\
  _tx_buffer_head t' = _tx_buffer_head t /\
  _tx_buffer_tail t' = _tx_buffer_tail t /\
  _rx_buffer_head t' = _rx_buffer_head t /\
  _rx_buffer_tail t' = _rx_buffer_tail t /\
  _tx_buffer t' = _tx_buffer t /\
  _rx_buffer t' = _rx_buffer t.
Proof.
  destruct b as [[[ca cb cc st bd td wire] ? ? ? ? ? ? h tl ? ?] ? ? ?].
  flag_bits. repeat split; auto.
Qed.

Lemma inv_begin_critical baud config b :
  tx_inv N (Serial b) -> tx_inv N (Serial (begin_critical F_CPU baud config b)).
Proof.
  destruct (begin_critical_effect baud config b) as (He & Hst & Hw & Hh & Ht & _).
  unfold tx_inv, tx_indices_ok, DREIF, TXCIF in *.
  rewrite He, Hst, Hw, Hh, Ht. auto.
Qed.

Lemma inv_set_written_false t :
  tx_inv N t -> _written t = false -> tx_inv N (set_written false t).
Proof.
  destruct t as [m ? ? ? w ? ? h tl ? ?]. cbn. intros H ->. exact H.
Qed.

Lemma inv_begin sched baud config b b' :
  tx_inv N (Serial b) -> begin N M F_CPU sched baud config b = Some b' ->
  tx_inv N (Serial b').
Proof.
  intros Hinv. unfold begin. destruct (_written (Serial b)).
  - destruct (end_ N M sched (Serial b)) as [t1|] eqn:He; [|discriminate].
    intros [= <-]. apply inv_begin_critical. cbn [Serial set_Serial].
    pose proof (inv_end _ _ _ Hinv He) as H1.
    apply inv_set_written_false; [assumption|].
    unfold end_ in He. destruct (flush N M sched (Serial b)); [|discriminate].
    injection He as <-. apply end_critical_effect.
  - intros [= <-]. apply inv_begin_critical. assumption.
Qed.

Lemma inv_new rx_pin tx_pin mux : tx_inv N (UartClass_new N M rx_pin tx_pin mux).
Proof.
  unfold tx_inv, tx_indices_ok. flag_bits. cbn.
  repeat split; auto; lia.
Qed.

Lemma reachable_inv t : reachable N M F_CPU t -> tx_inv N t.
Proof.
  induction 1 as [rx_pin tx_pin mux osc sched baud config b' Hb
                 | t c sched t' r _ IH Hw
                 | t _ IH He Hf
                 | t _ IH | t e _ IH
                 | t sched t' _ IH Hf
                 | t sched t' _ IH He
                 | b sched baud config b' _ IH Hb].
  - eapply inv_begin; [|exact Hb]. apply inv_new.
  - eapply write_spin_inv; eauto.
  - apply inv_irq; assumption.
  - apply inv_poll; assumption.
  - apply inv_env; assumption.
  - eapply flush_inv; eauto.
  - eapply inv_end; eauto.
  - eapply inv_begin; eauto.
Qed.

(** *** The queue held by the TX ring *)

Lemma tx_used_range t : 0 <= tx_used N t < N.
Proof. unfold tx_used. apply Z.mod_pos_bound. assumption. Qed.

Lemma tx_used_zero_iff t :
  tx_indices_ok N t ->
  (tx_used N t = 0 <-> _tx_buffer_head t = _tx_buffer_tail t).
Proof.
  intros [Hh Ht]. unfold tx_used. split; intros H.
  - destruct (Z_lt_le_dec (_tx_buffer_head t) (_tx_buffer_tail t)).
    + rewrite Z.mod_small in H by lia. lia.
    + replace (N + _tx_buffer_head t - _tx_buffer_tail t)
        with (_tx_buffer_head t - _tx_buffer_tail t + 1 * N) in H by lia.
      rewrite Z_mod_plus_full, Z.mod_small in H by lia. lia.
  - rewrite H. replace (N + _tx_buffer_tail t - _tx_buffer_tail t) with N by lia.
    apply Z_mod_same_full.
Qed.

Lemma tx_used_after_pop h tl :
  0 <= h < N -> 0 <= tl < N -> h <> tl ->
  (N + h - (tl + 1) mod N) mod N = (N + h - tl) mod N - 1.
Proof.
  intros Hh Ht Hne.
  destruct (Z.eq_dec (tl + 1) N) as [E|E].
  - rewrite E, Z_mod_same_full.
    replace (N + h - 0) with (h + 1 * N) by lia.
    rewrite Z_mod_plus_full, Z.mod_small by lia.
    rewrite (Z.mod_small (N + h - tl)) by lia. lia.
  - rewrite (Z.mod_small (tl + 1)) by lia.
    destruct (Z_lt_le_dec h tl).
    + rewrite !Z.mod_small by lia. lia.
    + replace (N + h - (tl + 1)) with (h - (tl + 1) + 1 * N) by lia.
      replace (N + h - tl) with (h - tl + 1 * N) by lia.
      rewrite !Z_mod_plus_full, !Z.mod_small by lia. lia.
Qed.

Lemma tx_queue_pop t :
  tx_indices_ok N t -> _tx_buffer_head t <> _tx_buffer_tail t ->
  tx_used N (_tx_data_empty_irq N t) = tx_used N t - 1 /\
  tx_queue N t =
    array_get (_tx_buffer t) (_tx_buffer_tail t) :: tx_queue N (_tx_data_empty_irq N t).
Proof.
  intros Hok Hne.
  destruct (irq_frame t) as (Hh & Hb & _).
  pose proof (irq_tail t) as Htl.
  assert (Hu : tx_used N (_tx_data_empty_irq N t) = tx_used N t - 1).
  { unfold tx_used. rewrite Hh, Htl. destruct Hok.
    apply tx_used_after_pop; assumption. }
  split; [exact Hu|].
  unfold tx_queue. rewrite Hu, Hb, Htl.
  assert (Hpos : 0 < tx_used N t).
  { pose proof (tx_used_range t). pose proof (tx_used_zero_iff t Hok). lia. }
  replace (Z.to_nat (tx_used N t)) with (S (Z.to_nat (tx_used N t - 1))) by lia.
  cbn [seq map]. f_equal.
  - f_equal. rewrite Z.add_0_r. destruct Hok. apply Z.mod_small. lia.
  - rewrite <- seq_shift, map_map. apply map_ext. intros k.
    f_equal. rewrite Zplus_mod_idemp_l. f_equal. lia.
Qed.

(** *** The data-register-empty handler *)

(** C4: every run of the handler takes the byte at [tail] out of the TX
    ring and advances [tail] by one modulo the buffer size, stores that
    byte to the data register, clears the transmit-complete flag, and
    leaves the data-register-empty interrupt enabled only if it was
    enabled and the ring is still non-empty after the pop. *)
Theorem tx_data_empty_irq_pops_one t :
  let t' := _tx_data_empty_irq N t in
  let c := array_get (_tx_buffer t) (_tx_buffer_tail t) in
  _tx_buffer_tail t' = (_tx_buffer_tail t + 1) mod N /\
  _tx_buffer_head t' = _tx_buffer_head t /\
  _tx_buffer t' = _tx_buffer t /\
  TXDATAL (_hwserial_module t') = c /\
  tx_wire (_hwserial_module t') = tx_wire (_hwserial_module t) ++ [c] /\
  TXCIF t' = false /\
  DREIE t' = DREIE t && negb (_tx_buffer_head t' =? _tx_buffer_tail t') /\
  (tx_indices_ok N t -> _tx_buffer_head t <> _tx_buffer_tail t ->
   tx_used N t' = tx_used N t - 1 /\ tx_queue N t = c :: tx_queue N t').
Proof.
  intros t' c. subst t' c.
  destruct (irq_frame t) as (Hh & Hb & _).
  destruct (irq_data t) as (Hd & Hw).
  destruct (irq_flags t) as (_ & Hc & He).
  pose proof (irq_tail t) as Htl.
  rewrite Hh, Htl.
  repeat split; try assumption.
  - apply tx_queue_pop; assumption.
  - apply tx_queue_pop; assumption.
Qed.

(** *** The manual poll *)

(** C5: the handler itself pops without looking.  When the interrupt
    enable is up only while the TX ring is non-empty, every call made
    through [_poll_tx_data_empty] finds a queued byte: the slot it reads
    is the oldest queued byte, the count of queued bytes drops by exactly
    one (tail does not pass head), and the relation between the enable
    bit and the ring still holds afterwards. *)
Theorem poll_pops_only_queued_bytes t :
  tx_indices_ok N t ->
  (DREIE t = true -> _tx_buffer_head t <> _tx_buffer_tail t) ->
  let t' := _poll_tx_data_empty N t in
  (DREIE t && DREIF t = true ->
     t' = _tx_data_empty_irq N t /\
     0 < tx_used N t /\
     tx_used N t' = tx_used N t - 1 /\
     tx_queue N t = TXDATAL (_hwserial_module t') :: tx_queue N t') /\
  (DREIE t && DREIF t = false -> t' = t) /\
  tx_indices_ok N t' /\
  (DREIE t' = true -> _tx_buffer_head t' <> _tx_buffer_tail t').
Proof.
  intros Hok Hinv t'. subst t'.
  destruct (poll_cases t) as [(He & Hf & ->) | (Hg & ->)].
  - specialize (Hinv He).
    destruct (tx_queue_pop t Hok Hinv) as [Hu Hq].
    destruct (irq_data t) as (Hd & _).
    destruct (irq_frame t) as (Hh & _).
    destruct (irq_flags t) as (_ & _ & He').
    pose proof (irq_tail t) as Htl.
    pose proof (tx_used_range (_tx_data_empty_irq N t)).
    split; [|split; [|split]].
    + intros _. rewrite Hd. repeat split; auto. lia.
    + rewrite He, Hf. discriminate.
    + destruct Hok. split; rewrite ?Hh, ?Htl; [assumption|].
      apply Z.mod_pos_bound. assumption.
    + rewrite He', Hh, Htl, He. cbn [andb].
      intros Hn. apply negb_true_iff in Hn. apply Z.eqb_neq. assumption.
  - split; [|split; [|split]]; auto.
    rewrite Hg. discriminate.
Qed.

(** *** availableForWrite *)

(** C9: with both indices inside the ring, [availableForWrite] is the
    capacity [N - 1] less the number of queued bytes, and is not
    negative. *)
Theorem availableForWrite_counts_free_slots t :
  tx_indices_ok N t ->
  availableForWrite N t = N - 1 - tx_used N t /\
  availableForWrite N t + tx_used N t = N - 1 /\
  0 <= availableForWrite N t.
Proof.
  intros [Hh Ht].
  assert (E : availableForWrite N t = N - 1 - tx_used N t).
  { unfold availableForWrite, tx_used, int16.
    destruct (Z.leb_spec (_tx_buffer_tail t) (_tx_buffer_head t)).
    - replace (N + _tx_buffer_head t - _tx_buffer_tail t)
        with (_tx_buffer_head t - _tx_buffer_tail t + 1 * N) by lia.
      rewrite Z_mod_plus_full, Z.mod_small by lia.
      rewrite swrap_small; [lia | lia |].
      change (2 ^ (16 - 1)) with 32768. lia.
    - rewrite Z.mod_small by lia.
      rewrite swrap_small; [lia | lia |].
      change (2 ^ (16 - 1)) with 32768. lia. }
  pose proof (tx_used_range t). lia.
Qed.

(** *** What a turn of a spin loop leaves alone *)

Lemma env_frame e t :
  let t' := env_apply N M e t in
  _written t' = _written t /\ _tx_buffer_head t' = _tx_buffer_head t.
Proof.
  destruct e; cbn [env_apply].
  - destruct t as [[ca cb cc st bd td wire] ? ? ? ? ? ? h tl ? ?]. cbn. auto.
  - destruct (DREIF t); [|auto].
    destruct t as [[ca cb cc st bd td wire] ? ? ? ? ? ? h tl ? ?]. cbn. auto.
  - destruct (DREIE t && DREIF t); [|auto].
    destruct (irq_frame t) as (Hh & _ & Hw & _). auto.
  - destruct (bit_is_set _ _); [|auto]. unfold _rx_complete_irq.
    match goal with |- context [if ?c then _ else _] => destruct c end; auto.
Qed.

Lemma env_run_written es t : _written (env_run N M es t) = _written t.
Proof.
  unfold env_run. revert t. induction es as [|e es IH]; intros t; simpl; auto.
  rewrite IH. apply env_frame.
Qed.

Lemma poll_written t : _written (_poll_tx_data_empty N t) = _written t.
Proof.
  destruct (poll_cases t) as [(_ & _ & ->) | (_ & ->)]; auto.
  apply irq_frame.
Qed.

Lemma spin_turn_written b t : _written (spin_turn N M b t) = _written t.
Proof.
  unfold spin_turn. rewrite env_run_written, poll_written, env_run_written.
  reflexivity.
Qed.

Lemma armed_irq t :
  DREIE t = true -> tx_armed (_tx_data_empty_irq N t).
Proof.
  intros He. unfold tx_armed.
  destruct (irq_frame t) as (Hh & _).
  destruct (irq_flags t) as (_ & _ & Hd).
  rewrite Hd, Hh, irq_tail, He. cbn [andb].
  intros Hne. apply negb_true_iff. apply Z.eqb_neq. assumption.
Qed.

Lemma armed_poll t : tx_armed t -> tx_armed (_poll_tx_data_empty N t).
Proof.
  intros H. destruct (poll_cases t) as [(He & _ & ->) | (_ & ->)];
    auto using armed_irq.
Qed.

Lemma armed_env e t : tx_armed t -> tx_armed (env_apply N M e t).
Proof.
  intros H. destruct e; cbn [env_apply].
  - revert H. destruct t as [[ca cb cc st bd td wire] ? ? ? ? ? ? h tl ? ?].
    unfold tx_armed. flag_bits. auto.
  - destruct (DREIF t); [|assumption].
    revert H. destruct t as [[ca cb cc st bd td wire] ? ? ? ? ? ? h tl ? ?].
    unfold tx_armed. flag_bits. auto.
  - apply armed_poll in H. exact H.
  - destruct (bit_is_set _ _); [|assumption]. revert H.
    unfold tx_armed, _rx_complete_irq.
    match goal with |- context [if ?c then _ else _] => destruct c end; auto.
Qed.

Lemma armed_spin_turn b t : tx_armed t -> tx_armed (spin_turn N M b t).
Proof.
  assert (Hrun : forall es u, tx_armed u -> tx_armed (env_run N M es u)).
  { unfold env_run. induction es as [|e es IH]; intros u Hu; simpl; auto using armed_env. }
  intros H. unfold spin_turn. auto using armed_poll.
Qed.

(** *** flush *)

Lemma flush_spin_exit sched : forall t t',
  flush_spin N M sched t = Some t' ->
  flush_waiting t' = false /\ (tx_armed t -> tx_armed t').
Proof.
  induction sched as [|b rest IH]; intros t t'; cbn [flush_spin];
    destruct (flush_waiting t) eqn:Hwt.
  - discriminate.
  - intros [= <-]. auto.
  - intros H. apply IH in H. destruct H as [H1 H2].
    split; [assumption|]. auto using armed_spin_turn.
  - intros [= <-]. auto.
Qed.

(** C2: [flush] hands back the state untouched, whatever the registers
    hold, when [_written] is false.  Otherwise it leaves at once if the
    data-register-empty interrupt is disabled and the transmit-complete
    flag is up, and else runs the manual poll and looks again; when it
    returns, that interrupt is disabled, the transmit-complete flag is up
    and, queued bytes having kept the interrupt enabled, the TX ring is
    empty. *)
Theorem flush_waits_for_transmit_complete sched t :
  (_written t = false -> flush N M sched t = Some t) /\
  (_written t = true ->
   (DREIE t = false -> TXCIF t = true -> flush N M sched t = Some t) /\
   (DREIE t = true \/ TXCIF t = false ->
      flush N M [] t = None /\
      forall before after rest,
        flush N M ((before, after) :: rest) t =
        flush N M rest
          (env_run N M after (_poll_tx_data_empty N (env_run N M before t)))) /\
   (forall t', flush N M sched t = Some t' ->
      DREIE t' = false /\ TXCIF t' = true /\
      (tx_armed t -> _tx_buffer_head t' = _tx_buffer_tail t'))).
Proof.
  split.
  - intros Hw. unfold flush. rewrite Hw. reflexivity.
  - intros Hw. unfold flush. rewrite Hw. cbn [negb]. split; [|split].
    + intros He Hc.
      assert (Hnw : flush_waiting t = false)
        by (unfold flush_waiting; rewrite He, Hc; reflexivity).
      destruct sched; cbn [flush_spin]; rewrite Hnw; reflexivity.
    + intros Hwait.
      assert (Hyes : flush_waiting t = true).
      { unfold flush_waiting. destruct Hwait as [-> | ->]; [reflexivity|].
        apply orb_true_r. }
      split.
      * cbn [flush_spin]. rewrite Hyes. reflexivity.
      * intros before after rest. cbn [flush_spin]. rewrite Hyes.
        change (env_run N M after (_poll_tx_data_empty N (env_run N M before t)))
          with (spin_turn N M (before, after) t).
        rewrite spin_turn_written, Hw. reflexivity.
    + intros t' H. apply flush_spin_exit in H. destruct H as [Hnw Harm].
      unfold flush_waiting in Hnw. apply orb_false_iff in Hnw.
      destruct Hnw as [He Hc]. apply negb_false_iff in Hc.
      repeat split; auto.
      intros Ha. specialize (Harm Ha). unfold tx_armed in Harm.
      destruct (Z.eq_dec (_tx_buffer_head t') (_tx_buffer_tail t')); [assumption|].
      rewrite Harm in He by assumption. discriminate.
Qed.

(** *** write *)

Lemma write_spin_value c sched : forall t t' r,
  write_spin N M c sched t = Some (t', r) -> r = 1.
Proof.
  induction sched as [|b rest IH]; intros t t' r; cbn [write_spin];
    destruct (write_attempt_result c t) as [Hr | Hr].
  - destruct (write_attempt N c t) as [t1 [r1|]]; cbn in Hr; [|discriminate].
    intros [= <- <-]. congruence.
  - rewrite Hr. discriminate.
  - destruct (write_attempt N c t) as [t1 [r1|]]; cbn in Hr; [|discriminate].
    intros [= <- <-]. congruence.
  - rewrite Hr. apply IH.
Qed.

Lemma write_spin_done c sched t t' r :
  write_attempt N c t = (t', Some r) -> write_spin N M c sched t = Some (t', r).
Proof. intros H. destruct sched; cbn [write_spin]; rewrite H; reflexivity. Qed.

(** C1: whenever [write] returns, it returns 1.  If the
    data-register-empty interrupt is disabled and the data register is
    free, the byte goes straight to the data register and the ring is
    not touched.  Otherwise, if the ring has a free slot, the byte is
    stored at [head], [head] advances and the interrupt is enabled; the
    data register is not touched.  Otherwise the pass changes nothing,
    and [write] runs the manual poll and tries again. *)
Theorem write_returns_one c sched t :
  (forall t' r, write N M c sched t = Some (t', r) -> r = 1) /\
  (DREIE t = false -> DREIF t = true ->
   exists t', write N M c sched t = Some (t', 1) /\
     TXDATAL (_hwserial_module t') = c /\
     tx_wire (_hwserial_module t') = tx_wire (_hwserial_module t) ++ [c] /\
     _tx_buffer t' = _tx_buffer t /\
     _tx_buffer_head t' = _tx_buffer_head t /\
     _tx_buffer_tail t' = _tx_buffer_tail t) /\
  (DREIE t = true \/ DREIF t = false ->
   (_tx_buffer_head t + 1) mod N <> _tx_buffer_tail t ->
   exists t', write N M c sched t = Some (t', 1) /\
     _tx_buffer t' = array_set (_tx_buffer t) (_tx_buffer_head t) c /\
     _tx_buffer_head t' = (_tx_buffer_head t + 1) mod N /\
     _tx_buffer_tail t' = _tx_buffer_tail t /\
     DREIE t' = true /\
     TXDATAL (_hwserial_module t') = TXDATAL (_hwserial_module t) /\
     tx_wire (_hwserial_module t') = tx_wire (_hwserial_module t)) /\
  (DREIE t = true \/ DREIF t = false ->
   (_tx_buffer_head t + 1) mod N = _tx_buffer_tail t ->
   write_attempt N c t = (t, None) /\
   write N M c [] t = None /\
   forall before after rest,
     write N M c ((before, after) :: rest) t =
     write N M c rest
       (env_run N M after (_poll_tx_data_empty N (env_run N M before t)))).
Proof.
  assert (Hslow : DREIE t = true \/ DREIF t = false ->
                  negb (DREIE t) && DREIF t = false).
  { intros [-> | ->]; [reflexivity | apply andb_false_r]. }
  unfold write. split; [|split; [|split]].
  - intros t' r. apply write_spin_value.
  - intros He Hf.
    destruct (write_attempt_fast c t He Hf)
      as (t' & Ha & Hd & Hw & _ & Hh & Ht & Hb & _).
    exists t'. rewrite (write_spin_done _ _ _ _ _ Ha). repeat split; auto.
  - intros Hg Hne. apply Hslow in Hg.
    destruct (write_attempt_buffered c t Hg Hne)
      as (t' & Ha & Hb & Hh & Ht & He & _ & _ & _ & Hd & Hw).
    exists t'. rewrite (write_spin_done _ _ _ _ _ Ha). repeat split; auto.
  - intros Hg Heq. apply Hslow in Hg.
    pose proof (write_attempt_full c t Hg Heq) as Ha.
    split; [exact Ha|]. split.
    + cbn [write_spin]. rewrite Ha. reflexivity.
    + intros before after rest. cbn [write_spin]. rewrite Ha. reflexivity.
Qed.

(** X17: [write] cannot stay blocked once the transmitter moves.  In a
    state that satisfies the transmit invariant, one turn in which the
    transmitter frees the data register is enough: the manual poll pops
    a byte and [write] returns 1 (a full ring needs no interrupt to make
    room). *)
Lemma write_returns_once_drained c rest t :
  tx_inv N t -> 2 <= N ->
  exists t', write N M c (([HwDataRegisterEmptied], []) :: rest) t = Some (t', 1).
Proof.
  intros Hinv HN. unfold write.
  destruct (write_attempt_result c t) as [Hr | Hr].
  - destruct (write_attempt N c t) as [t1 [r1|]] eqn:Ha; cbn in Hr; [|discriminate].
    injection Hr as ->. exists t1. apply write_spin_done. assumption.
  - cbn [write_spin]. rewrite Hr.
    destruct Hinv as ((Hh & Ht) & Hie & Hw & Hc).
    (* the failed pass tells the ring is full *)
    assert (Hfull : (_tx_buffer_head t + 1) mod N = _tx_buffer_tail t).
    { revert Hr. unfold write_attempt. rewrite tx_index_next.
      destruct (negb (DREIE t) && DREIF t); [discriminate|].
      destruct (Z.eqb_spec ((_tx_buffer_head t + 1) mod N) (_tx_buffer_tail t));
        [auto | discriminate]. }
    assert (Hne : _tx_buffer_head t <> _tx_buffer_tail t).
    { intros E. rewrite <- E in Hfull.
      destruct (Z.eq_dec (_tx_buffer_head t + 1) N) as [E1|E1].
      - rewrite E1, Z_mod_same_full in Hfull. lia.
      - rewrite Z.mod_small in Hfull by lia. lia. }
    assert (He : DREIE t = true).
    { rewrite Hie. apply negb_true_iff. apply Z.eqb_neq. assumption. }
    set (t1 := env_apply N M HwDataRegisterEmptied t).
    assert (H1 : DREIE t1 = true /\ DREIF t1 = true /\
                 _tx_buffer_head t1 = _tx_buffer_head t /\
                 _tx_buffer_tail t1 = _tx_buffer_tail t).
    { subst t1. revert He. clear.
      destruct t as [[ca cb cc st bd td wire] ? ? ? ? ? ? h tl ? ?].
      cbn [env_apply]. flag_bits. auto. }
    destruct H1 as (He1 & Hf1 & Hh1 & Ht1).
    unfold spin_turn, env_run. cbn [fst snd fold_left]. fold t1.
    unfold _poll_tx_data_empty. rewrite He1, Hf1. cbn [andb].
    destruct (irq_frame t1) as (Hh2 & _).
    destruct (irq_flags t1) as (Hf2 & _ & _).
    pose proof (irq_tail t1) as Ht2.
    set (t2 := _tx_data_empty_irq N t1) in *.
    assert (Hg : negb (DREIE t2) && DREIF t2 = false)
      by (rewrite Hf2; apply andb_false_r).
    assert (Hroom : (_tx_buffer_head t2 + 1) mod N <> _tx_buffer_tail t2).
    { rewrite Hh2, Ht2, Hh1, Ht1, Hfull.
      destruct (Z.eq_dec (_tx_buffer_tail t + 1) N) as [E1|E1].
      - rewrite E1, Z_mod_same_full. lia.
      - rewrite Z.mod_small by lia. lia. }
    destruct (write_attempt_buffered c t2 Hg Hroom) as (t3 & Ha & _).
    exists t3. apply write_spin_done. assumption.
Qed.

(** C10: a pass of [write] sets [_written] on the fast path and nowhere
    else.  A write that goes through the ring stores the byte, returns 1
    and leaves [_written] as it was; if that was false, a following
    [flush] returns at once with the byte still queued. *)
Theorem written_set_only_by_fast_path c t :
  _written (fst (write_attempt N c t)) = (negb (DREIE t) && DREIF t) || _written t /\
  (DREIE t = true \/ DREIF t = false ->
   (_tx_buffer_head t + 1) mod N <> _tx_buffer_tail t ->
   forall sched, exists t',
     write N M c sched t = Some (t', 1) /\
     _written t' = _written t /\
     _tx_buffer t' = array_set (_tx_buffer t) (_tx_buffer_head t) c /\
     _tx_buffer_head t' <> _tx_buffer_tail t' /\
     (_written t = false -> forall sched', flush N M sched' t' = Some t')).
Proof.
  split.
  - destruct (negb (DREIE t) && DREIF t) eqn:Hg.
    + apply andb_true_iff in Hg. destruct Hg as [He Hf].
      apply negb_true_iff in He.
      destruct (write_attempt_fast c t He Hf) as (t' & -> & _ & _ & Hw & _).
      cbn [fst orb]. assumption.
    + destruct (Z.eq_dec ((_tx_buffer_head t + 1) mod N) (_tx_buffer_tail t)) as [E|E].
      * rewrite write_attempt_full by assumption. reflexivity.
      * destruct (write_attempt_buffered c t Hg E)
          as (t' & -> & _ & _ & _ & _ & _ & _ & Hw & _).
        cbn [fst orb]. assumption.
  - intros Hslow Hne sched.
    assert (Hg : negb (DREIE t) && DREIF t = false).
    { destruct Hslow as [-> | ->]; [reflexivity | apply andb_false_r]. }
    destruct (write_attempt_buffered c t Hg Hne)
      as (t' & Ha & Hb & Hh & Ht & _ & _ & _ & Hw & _).
    exists t'. unfold write. rewrite (write_spin_done _ _ _ _ _ Ha).
    repeat split; auto.
    + rewrite Hh, Ht. assumption.
    + intros Hnw sched'. unfold flush. rewrite Hw, Hnw. reflexivity.
Qed.

(** *** The invariant on reachable states *)

(** C3: in every state reached from a constructed and begun port by
    [write], the manual poll, [flush], [end], [begin] and the steps of
    the environment (among them the data-register-empty vector running
    [_tx_data_empty_irq]), the data-register-empty interrupt is enabled
    if and only if the TX ring is non-empty. *)
Theorem dreie_iff_tx_nonempty t :
  reachable N M F_CPU t ->
  (DREIE t = true <-> _tx_buffer_head t <> _tx_buffer_tail t).
Proof.
  intros Hr. apply reachable_inv in Hr.
  destruct Hr as (_ & Hie & _). rewrite Hie.
  rewrite negb_true_iff, Z.eqb_neq. tauto.
Qed.

(** *** flush returns once the transmitter has drained the ring *)

Lemma drain_turn_effect t :
  let t' := env_run N M [HwDataRegisterEmptied; HwFrameComplete] t in
  DREIE t' = DREIE t /\ DREIF t' = true /\ TXCIF t' = true /\
  _tx_buffer_head t' = _tx_buffer_head t /\
  _tx_buffer_tail t' = _tx_buffer_tail t.
Proof.
  unfold env_run. cbn [fold_left].
  set (t1 := env_apply N M HwDataRegisterEmptied t).
  assert (H1 : DREIE t1 = DREIE t /\ DREIF t1 = true /\
               _tx_buffer_head t1 = _tx_buffer_head t /\
               _tx_buffer_tail t1 = _tx_buffer_tail t).
  { subst t1. destruct t as [[ca cb cc st bd td wire] ? ? ? ? ? ? h tl ? ?].
    cbn [env_apply]. flag_bits. auto. }
  destruct H1 as (He & Hf & Hh & Ht).
  cbn [env_apply]. rewrite Hf.
  rewrite <- He, <- Hh, <- Ht. clear He Hh Ht. revert Hf. generalize t1. clear.
  intros [[ca cb cc st bd td wire] ? ? ? ? ? ? h tl ? ?].
  flag_bits. auto.
Qed.

Lemma flush_spin_cons b rest t :
  flush_spin N M (b :: rest) t =
  if flush_waiting t then flush_spin N M rest (spin_turn N M b t) else Some t.
Proof. reflexivity. Qed.

Lemma flush_spin_not_waiting sched t :
  flush_waiting t = false -> flush_spin N M sched t = Some t.
Proof. intros H. destruct sched; cbn [flush_spin]; rewrite H; reflexivity. Qed.

Lemma drain_spin_turn t :
  tx_inv N t ->
  let t' := spin_turn N M ([HwDataRegisterEmptied; HwFrameComplete], []) t in
  tx_inv N t' /\
  (tx_used N t' = tx_used N t - 1 /\ 0 < tx_used N t \/ flush_waiting t' = false).
Proof.
  intros Hinv t'. split; [apply inv_spin_turn; assumption|].
  subst t'. unfold spin_turn. cbn [fst snd].
  change (env_run N M [] ?x) with x.
  destruct (drain_turn_effect t) as (He & Hf & Hc & Hh & Ht).
  assert (Hinv1 : tx_inv N (env_run N M [HwDataRegisterEmptied; HwFrameComplete] t))
    by (apply inv_env_run; assumption).
  revert He Hf Hc Hh Ht Hinv1.
  generalize (env_run N M [HwDataRegisterEmptied; HwFrameComplete] t).
  intros t1 He Hf Hc Hh Ht ((Hh1 & Ht1) & Hie1 & _).
  assert (Hu1 : tx_used N t1 = tx_used N t)
    by (unfold tx_used; rewrite Hh, Ht; reflexivity).
  unfold _poll_tx_data_empty. rewrite Hf, andb_true_r.
  destruct (DREIE t1) eqn:He1.
  - left.
    assert (Hne : _tx_buffer_head t1 <> _tx_buffer_tail t1).
    { symmetry in Hie1. apply negb_true_iff in Hie1. apply Z.eqb_neq. assumption. }
    destruct (tx_queue_pop t1 (conj Hh1 Ht1) Hne) as [Hu _].
    pose proof (tx_used_range (_tx_data_empty_irq N t1)).
    rewrite Hu, Hu1 in *. lia.
  - right. unfold flush_waiting. rewrite He1, Hc. reflexivity.
Qed.

Lemma flush_spin_returns_when_drained n : forall t,
  tx_inv N t -> Z.to_nat (tx_used N t) = n ->
  exists t',
    flush_spin N M
      (repeat ([HwDataRegisterEmptied; HwFrameComplete], []) (S n)) t = Some t'.
Proof.
  induction n as [|n IH]; intros t Hinv Hn;
    change (repeat ?d (S ?k)) with (d :: repeat d k);
    rewrite flush_spin_cons;
    (destruct (flush_waiting t); [|eauto]);
    destruct (drain_spin_turn t Hinv) as (Hinv' & [(Hu & Hpos) | Hnw]).
  - lia.
  - rewrite flush_spin_not_waiting by assumption. eauto.
  - apply IH; [assumption | lia].
  - rewrite flush_spin_not_waiting by assumption. eauto.
Qed.

(** X18: [flush] returns once the transmitter has drained the ring: in a
    state that satisfies the transmit invariant, as many turns as there
    are queued bytes plus one, in each of which the transmitter frees
    the data register and completes the frame, bring [flush] to its
    exit, with no interrupt taken. *)
Lemma flush_returns_when_drained t :
  tx_inv N t ->
  exists t',
    flush N M (repeat ([HwDataRegisterEmptied; HwFrameComplete], [])
                      (S (Z.to_nat (tx_used N t)))) t = Some t'.
Proof.
  intros Hinv. unfold flush. destruct (_written t); cbn [negb]; [|eauto].
  apply flush_spin_returns_when_drained; auto.
Qed.

(** *** begin: the baud register *)

Lemma spec_divisor_eq clock baud :
  0 < baud -> spec_divisor clock baud = (8 * clock / baud + 1) / 2.
Proof.
  intros Hb. unfold spec_divisor.
  rewrite (Qfloor_comp _ (inject_Z (8 * clock + baud) / inject_Z (baud * 2))).
  - rewrite <- Zdiv_Qdiv.
    rewrite <- Z.div_div by lia. f_equal.
    replace (8 * clock + baud) with (8 * clock + 1 * baud) by lia.
    apply Z_div_plus_full. lia.
  - rewrite inject_Z_plus, !inject_Z_mult.
    assert (Hq : ~ inject_Z baud == 0).
    { unfold Qeq. cbn. lia. }
    change (inject_Z 2) with 2%Q.
    revert Hq. generalize (inject_Z clock), (inject_Z baud).
    intros q r Hr. field. assumption.
Qed.

Lemma int8_range x : -128 <= int8 x <= 127.
Proof.
  unfold int8, swrap. change (2 ^ (8 - 1)) with 128. change (2 ^ 8) with 256.
  pose proof (Z.mod_pos_bound (x + 128) 256). lia.
Qed.

Lemma baud_setting_exact baud sigrow :
  0 <= F_CPU -> 8 * F_CPU < 2 ^ 31 -> 0 < baud < 2 ^ 32 ->
  0 <= spec_baud_register F_CPU baud (int8 sigrow) < 2 ^ 16 ->
  baud_setting F_CPU baud sigrow = spec_baud_register F_CPU baud (int8 sigrow).
Proof.
  intros HF HF8 Hb. unfold spec_baud_register, baud_setting. cbv zeta.
  rewrite spec_divisor_eq by lia.
  change (2 ^ 31) with 2147483648 in *. change (2 ^ 32) with 4294967296 in *.
  change (2 ^ 16) with 65536.
  assert (Hq : 0 <= 8 * F_CPU / baud <= 8 * F_CPU).
  { split; [apply Z.div_pos; lia|].
    apply Z.div_le_upper_bound; [lia|]. nia. }
  unfold u32. rewrite (wrap_small 32 (8 * F_CPU)), (wrap_small 32 baud)
    by (change (2 ^ 32) with 4294967296; lia).
  rewrite (wrap_small 32 (8 * F_CPU / baud)), (wrap_small 32 (8 * F_CPU / baud + 1))
    by (change (2 ^ 32) with 4294967296; lia).
  set (D := (8 * F_CPU / baud + 1) / 2).
  assert (HD : 0 <= D < 1073741825).
  { subst D. split; [apply Z.div_pos; lia|].
    apply Z.div_lt_upper_bound; lia. }
  unfold int32. rewrite (swrap_small 32 D)
    by (change (2 ^ (32 - 1)) with 2147483648; lia).
  pose proof (int8_range sigrow) as Ht.
  set (trim := int8 sigrow) in *.
  intros Hr.
  assert (Hp : -128 * D <= D * trim <= 127 * D) by nia.
  assert (HD' : D < 74899).
  { revert Hr Hp. generalize (D * trim). intros p Hr Hp.
    Z.to_euclidean_division_equations. lia. }
  rewrite (swrap_small 32 (D * trim))
    by (change (2 ^ (32 - 1)) with 2147483648; lia).
  apply swrap_small; [lia|].
  change (2 ^ (32 - 1)) with 2147483648. lia.
Qed.

Lemma begin_critical_BAUD baud config b :
  BAUD (_hwserial_module (Serial (begin_critical F_CPU baud config b))) =
  u16 (int16 (baud_setting F_CPU baud (SIGROW_OSC16ERR5V b))).
Proof. destruct b as [[[ca cb cc st bd td wire] ? ? ? ? ? ? h tl ? ?] ? ? ?]. reflexivity. Qed.

(** C8, for values that fit the registers: [begin] always stores the low
    16 bits of its 32-bit computation in the baud register.  When
    [8 * F_CPU] fits a [long], the baud rate is positive and the
    corrected divisor fits the 16-bit register, the value stored is
    [D + (D * trim) / 1024], where [D] is [(8 * F_CPU) / baud / 2] rounded
    to the nearest integer, [trim] is the calibration byte read as a
    signed value, and the division by 1024 truncates towards zero. *)
Theorem begin_programs_baud_register sched baud config b b' :
  begin N M F_CPU sched baud config b = Some b' ->
  BAUD (_hwserial_module (Serial b')) =
    u16 (baud_setting F_CPU baud (SIGROW_OSC16ERR5V b)) /\
  (0 <= F_CPU -> 8 * F_CPU < 2 ^ 31 -> 0 < baud < 2 ^ 32 ->
   0 <= spec_baud_register F_CPU baud (int8 (SIGROW_OSC16ERR5V b)) < 2 ^ 16 ->
   BAUD (_hwserial_module (Serial b')) =
   spec_baud_register F_CPU baud (int8 (SIGROW_OSC16ERR5V b))).
Proof.
  intros Hbegin.
  assert (E : exists b0, b' = begin_critical F_CPU baud config b0 /\
                         SIGROW_OSC16ERR5V b0 = SIGROW_OSC16ERR5V b).
  { revert Hbegin. unfold begin. destruct (_written (Serial b)).
    - destruct (end_ N M sched (Serial b)); [|discriminate].
      intros [= <-]. eexists. split; [reflexivity|]. reflexivity.
    - intros [= <-]. eexists. split; reflexivity. }
  destruct E as (b0 & -> & Hs).
  rewrite begin_critical_BAUD, u16_int16, Hs.
  split; [reflexivity|].
  intros HF HF8 Hb Hr.
  rewrite baud_setting_exact by assumption.
  apply wrap_small. assumption.
Qed.

(** *** begin: the implicit end and the ring buffers *)

Lemma available_empty t :
  _rx_buffer_head t = _rx_buffer_tail t -> available M t = 0.
Proof.
  intros E. unfold available. rewrite E.
  replace (M + _rx_buffer_tail t - _rx_buffer_tail t) with M by lia.
  unfold u16. rewrite wrap_small by (change (2 ^ 16) with 65536; lia).
  rewrite Z_mod_same_full. reflexivity.
Qed.

Lemma set_written_end_critical t :
  set_written false (end_critical t) = end_critical t.
Proof. reflexivity. Qed.

Lemma begin_cases sched baud config b b' :
  begin N M F_CPU sched baud config b = Some b' ->
  (_written (Serial b) = false /\ b' = begin_critical F_CPU baud config b) \/
  (_written (Serial b) = true /\
   exists t1, flush_spin N M sched (Serial b) = Some t1 /\
     flush N M sched (Serial b) = Some t1 /\
     end_ N M sched (Serial b) = Some (end_critical t1) /\
     b' = begin_critical F_CPU baud config (set_Serial (end_critical t1) b)).
Proof.
  unfold begin, end_, flush. destruct (_written (Serial b)); cbn [negb].
  - destruct (flush_spin N M sched (Serial b)) as [t1|]; [|discriminate].
    intros [= <-]. right. split; [reflexivity|]. exists t1. auto.
  - intros [= <-]. auto.
Qed.

(** C6, as the code has it: [begin] itself never stores to a ring-buffer
    index.
    Called with [_written] false it leaves all four indices, and so the
    value of [available], as they were.  Called with [_written] true, its
    implicit [end] has waited for the transmitter and dropped the unread
    RX bytes: after [begin] returns [available] is 0 and, queued bytes
    having kept the data-register-empty interrupt enabled, the TX ring
    is empty. *)
Theorem begin_leaves_indices_to_end sched baud config b b' :
  begin N M F_CPU sched baud config b = Some b' ->
  (_written (Serial b) = false ->
     _rx_buffer_head (Serial b') = _rx_buffer_head (Serial b) /\
     _rx_buffer_tail (Serial b') = _rx_buffer_tail (Serial b) /\
     _tx_buffer_head (Serial b') = _tx_buffer_head (Serial b) /\
     _tx_buffer_tail (Serial b') = _tx_buffer_tail (Serial b) /\
     available M (Serial b') = available M (Serial b)) /\
  (_written (Serial b) = true ->
     _rx_buffer_head (Serial b') = _rx_buffer_tail (Serial b') /\
     available M (Serial b') = 0 /\
     (tx_armed (Serial b) ->
      _tx_buffer_head (Serial b') = _tx_buffer_tail (Serial b'))).
Proof.
  intros Hb.
  destruct (begin_cases _ _ _ _ _ Hb) as [(Hw & ->) | (Hw & t1 & Hsp & _ & _ & ->)];
    rewrite Hw; (split; [|intros; discriminate]) || (split; [intros; discriminate|]);
    intros _.
  - destruct (begin_critical_effect baud config b)
      as (_ & _ & _ & Hth & Htt & Hrh & Hrt & _).
    unfold available. rewrite Hth, Htt, Hrh, Hrt. auto.
  - destruct (begin_critical_effect baud config (set_Serial (end_critical t1) b))
      as (_ & _ & _ & Hth & Htt & Hrh & Hrt & _).
    cbn [Serial set_Serial] in *.
    destruct (end_critical_effect t1) as (_ & _ & _ & _ & Hh & Ht & Hrh' & Hrt' & _).
    assert (Hrx : _rx_buffer_head (Serial (begin_critical F_CPU baud config
                    (set_Serial (end_critical t1) b))) =
                  _rx_buffer_tail (Serial (begin_critical F_CPU baud config
                    (set_Serial (end_critical t1) b)))) by congruence.
    split; [exact Hrx|]. split; [apply available_empty; exact Hrx|].
    intros Ha. rewrite Hth, Htt, Hh, Ht.
    apply flush_spin_exit in Hsp. destruct Hsp as [Hnw Harm].
    specialize (Harm Ha). unfold flush_waiting in Hnw.
    apply orb_false_iff in Hnw. destruct Hnw as [He _].
    destruct (Z.eq_dec (_tx_buffer_head t1) (_tx_buffer_tail t1)); [assumption|].
    rewrite Harm in He by assumption. discriminate.
Qed.

Lemma begin_critical_twice baud config b :
  let b1 := begin_critical F_CPU baud config b in
  let b2 := begin_critical F_CPU baud config b1 in
  Serial b2 = Serial b1 /\
  PORTMUX_USARTROUTEA b2 = PORTMUX_USARTROUTEA b1 /\
  SIGROW_OSC16ERR5V b2 = SIGROW_OSC16ERR5V b1.
Proof.
  destruct b as [[[ca cb cc st bd td wire] ? ? ? ? ? ? h tl ? ?] pm ? ?].
  unfold_uart. split; [|split; [apply u8_set_twice | reflexivity]].
  f_equal. f_equal.
  - apply u8_set_twice.
  - apply u8_clear_set_twice.
Qed.

(** C7, as the code has it: called with [_written] true, [begin] first
    runs [end]:
    it waits in [flush] until the data-register-empty interrupt is
    disabled and the transmit-complete flag is up, disables receiver and
    transmitter, drops the unread RX bytes and clears [_written]; only
    then does it program the registers.  Called with [_written] false it
    programs the registers at once, with no [end].  Either way a second
    [begin] with the same arguments right after the first returns
    immediately and changes neither the object nor the port
    multiplexer. *)
Theorem begin_ends_first_when_written sched baud config b :
  (_written (Serial b) = true ->
   forall b', begin N M F_CPU sched baud config b = Some b' ->
   exists t_flushed t_ended,
     flush N M sched (Serial b) = Some t_flushed /\
     DREIE t_flushed = false /\ TXCIF t_flushed = true /\
     end_ N M sched (Serial b) = Some t_ended /\
     bit_is_set (CTRLB (_hwserial_module t_ended)) USART_RXEN_bm = false /\
     bit_is_set (CTRLB (_hwserial_module t_ended)) USART_TXEN_bm = false /\
     _rx_buffer_head t_ended = _rx_buffer_tail t_ended /\
     _written t_ended = false /\
     b' = begin_critical F_CPU baud config (set_Serial t_ended b)) /\
  (_written (Serial b) = false ->
   begin N M F_CPU sched baud config b = Some (begin_critical F_CPU baud config b)) /\
  (forall b1, begin N M F_CPU sched baud config b = Some b1 ->
   forall sched', exists b2,
     begin N M F_CPU sched' baud config b1 = Some b2 /\
     Serial b2 = Serial b1 /\
     PORTMUX_USARTROUTEA b2 = PORTMUX_USARTROUTEA b1).
Proof.
  split; [|split].
  - intros Hw b' Hb.
    destruct (begin_cases _ _ _ _ _ Hb) as [(Hw' & _) | (_ & t1 & Hsp & Hfl & He & ->)];
      [congruence|].
    exists t1, (end_critical t1).
    destruct (end_critical_effect t1)
      as (_ & _ & _ & Hwr & _ & _ & Hrh & Hrt & Hrx & Htx).
    apply flush_spin_exit in Hsp. destruct Hsp as [Hnw _].
    unfold flush_waiting in Hnw. apply orb_false_iff in Hnw.
    destruct Hnw as [Hd Hc]. apply negb_false_iff in Hc.
    repeat split; auto.
  - intros Hw. unfold begin. rewrite Hw. reflexivity.
  - intros b1 Hb sched'.
    assert (E : exists b0, b1 = begin_critical F_CPU baud config b0 /\
                           _written (Serial b0) = false).
    { destruct (begin_cases _ _ _ _ _ Hb) as [(Hw & ->) | (_ & t1 & _ & _ & _ & ->)].
      - eauto.
      - eexists. split; [reflexivity|]. reflexivity. }
    destruct E as (b0 & -> & Hw0).
    destruct (begin_critical_effect baud config b0) as (_ & _ & Hw1 & _).
    exists (begin_critical F_CPU baud config (begin_critical F_CPU baud config b0)).
    split.
    + unfold begin. cbv zeta in Hw1. rewrite Hw1, Hw0. reflexivity.
    + destruct (begin_critical_twice baud config b0) as (H2 & H3 & _).
      split; assumption.
Qed.

(** Reachable states satisfy what [flush] and the manual poll rely on. *)
Lemma reachable_armed t : reachable N M F_CPU t -> tx_armed t.
Proof.
  intros Hr. apply reachable_inv in Hr. destruct Hr as (_ & Hie & _).
  unfold tx_armed. intros Hne. rewrite Hie.
  apply negb_true_iff. apply Z.eqb_neq. assumption.
Qed.

Lemma reachable_indices_ok t : reachable N M F_CPU t -> tx_indices_ok N t.
Proof. intros Hr. apply reachable_inv in Hr. apply Hr. Qed.

End Properties.

(** ** The engine on the small port *)

Lemma size4_pos : 0 < 4.
Proof. reflexivity. Defined.

Lemma size4_int : 4 <= 32767.
Proof. discriminate. Defined.

Lemma port_AB_reachable : reachable 4 4 16000000 port_AB.
Proof.
  apply (reach_write 4 4 16000000 port_A 66 [] port_AB 1); [|reflexivity].
  apply (reach_write 4 4 16000000 port_begun 65 [] port_A 1); [|reflexivity].
  apply (reach_fresh 4 4 16000000 0 1 0 0 [] 9600 0x03 board_begun).
  reflexivity.
Defined.

Lemma port_AB_indices_ok : tx_indices_ok 4 port_AB.
Proof. unfold tx_indices_ok. cbn. lia. Defined.

(** 'A' goes straight to the data register of the begun port. *)
Lemma write_returns_one_witness :
  exists t', write 4 4 65 [] port_begun = Some (t', 1) /\
             TXDATAL (_hwserial_module t') = 65 /\
             _tx_buffer t' = _tx_buffer port_begun.
Proof.
  destruct (write_returns_one 4 4 size4_pos size4_int 65 [] port_begun)
    as (_ & Hfast & _).
  destruct (Hfast eq_refl eq_refl) as (t' & Hw & Hd & _ & Hb & _).
  exists t'. split; [exact Hw|]. split; [exact Hd|]. exact Hb.
Defined.

(** With the ring full, [write] spins until a turn in which the
    transmitter frees the data register; the poll then pops 'B' and 'E'
    takes the freed slot. *)
Example write_on_full_ring :
  write 4 4 69 [] port_ABCD = None /\
  write 4 4 69 [([], [])] port_ABCD = None /\
  option_map (fun tr => (tx_queue 4 (fst tr), tx_wire (_hwserial_module (fst tr)), snd tr))
    (write 4 4 69 [([], []); ([HwDataRegisterEmptied], [])] port_ABCD)
  = Some ([67; 68; 69], [65; 66], 1).
Proof. repeat split. Qed.

(** [flush] on the port with 'B' queued returns once 'B' has left. *)
Lemma flush_waits_for_transmit_complete_witness :
  flush 4 4 [drain_turn; drain_turn] port_AB = Some port_AB_flushed /\
  DREIE port_AB_flushed = false /\ TXCIF port_AB_flushed = true /\
  _tx_buffer_head port_AB_flushed = _tx_buffer_tail port_AB_flushed.
Proof.
  destruct (flush_waits_for_transmit_complete 4 4 size4_pos size4_int
              [drain_turn; drain_turn] port_AB) as (_ & H).
  destruct (H eq_refl) as (_ & _ & Hret).
  destruct (Hret port_AB_flushed eq_refl) as (He & Hc & Hempty).
  split; [reflexivity|]. split; [exact He|]. split; [exact Hc|].
  apply Hempty. intros _. reflexivity.
Defined.

Example flush_still_spinning :
  flush 4 4 [drain_turn] port_AB = None /\
  flush 4 4 [] port_begun = Some port_begun.
Proof. split; reflexivity. Qed.

Lemma dreie_iff_tx_nonempty_witness :
  DREIE port_AB = true <-> _tx_buffer_head port_AB <> _tx_buffer_tail port_AB.
Proof.
  exact (dreie_iff_tx_nonempty 4 4 16000000 size4_pos size4_int port_AB
           port_AB_reachable).
Defined.

Lemma tx_data_empty_irq_pops_one_witness :
  _tx_buffer_tail (_tx_data_empty_irq 4 port_AB_ready) = 1 /\
  TXDATAL (_hwserial_module (_tx_data_empty_irq 4 port_AB_ready)) = 66 /\
  DREIE (_tx_data_empty_irq 4 port_AB_ready) = false.
Proof.
  destruct (tx_data_empty_irq_pops_one 4 size4_pos size4_int port_AB_ready)
    as (Ht & _ & _ & Hd & _ & _ & He & _).
  split; [exact Ht|]. split; [exact Hd|]. exact He.
Defined.

Lemma poll_pops_only_queued_bytes_witness :
  tx_queue 4 port_AB_ready =
    TXDATAL (_hwserial_module (_poll_tx_data_empty 4 port_AB_ready))
    :: tx_queue 4 (_poll_tx_data_empty 4 port_AB_ready) /\
  tx_used 4 (_poll_tx_data_empty 4 port_AB_ready) = tx_used 4 port_AB_ready - 1.
Proof.
  assert (Hok : tx_indices_ok 4 port_AB_ready) by (unfold tx_indices_ok; cbn; lia).
  assert (Hinv : DREIE port_AB_ready = true ->
                 _tx_buffer_head port_AB_ready <> _tx_buffer_tail port_AB_ready)
    by (intros _; discriminate).
  destruct (poll_pops_only_queued_bytes 4 size4_pos size4_int port_AB_ready Hok Hinv)
    as (Hpop & _).
  destruct (Hpop eq_refl) as (_ & _ & Hu & Hq).
  split; assumption.
Defined.

(** Called on an empty ring, the handler would step [tail] past [head]:
    three stale slots then count as queued while the interrupt stays
    disabled.  The guard of the manual poll keeps this from happening. *)
Example unguarded_pop_on_empty_ring :
  tx_used 4 port_begun = 0 /\
  tx_used 4 (_tx_data_empty_irq 4 port_begun) = 3 /\
  DREIE (_tx_data_empty_irq 4 port_begun) = false /\
  _poll_tx_data_empty 4 port_begun = port_begun.
Proof. repeat split. Qed.

Lemma availableForWrite_counts_free_slots_witness :
  availableForWrite 4 port_AB = 4 - 1 - tx_used 4 port_AB /\
  availableForWrite 4 port_AB + tx_used 4 port_AB = 4 - 1 /\
  0 <= availableForWrite 4 port_AB.
Proof.
  exact (availableForWrite_counts_free_slots 4 size4_pos size4_int port_AB
           port_AB_indices_ok).
Defined.

Example availableForWrite_values :
  availableForWrite 4 port_begun = 3 /\ availableForWrite 4 port_AB = 2 /\
  availableForWrite 4 port_ABCD = 0.
Proof. repeat split. Qed.

(** A byte written through the ring while [_written] is false: [flush]
    returns at once although the byte is still queued. *)
Lemma written_set_only_by_fast_path_witness :
  exists t', write 4 4 77 [] port_busy_unwritten = Some (t', 1) /\
             _written t' = false /\
             _tx_buffer_head t' <> _tx_buffer_tail t' /\
             flush 4 4 [] t' = Some t'.
Proof.
  destruct (written_set_only_by_fast_path 4 4 size4_pos size4_int 77
              port_busy_unwritten) as (_ & Hbuf).
  assert (Hslow : DREIE port_busy_unwritten = true \/ DREIF port_busy_unwritten = false)
    by (right; reflexivity).
  assert (Hroom : (_tx_buffer_head port_busy_unwritten + 1) mod 4
                  <> _tx_buffer_tail port_busy_unwritten) by discriminate.
  destruct (Hbuf Hslow Hroom []) as (t' & Hw & Hwr & _ & Hne & Hfl).
  exists t'. split; [exact Hw|]. split; [exact Hwr|]. split; [exact Hne|].
  apply Hfl. reflexivity.
Defined.

(** *** begin on the small port *)

Lemma port_rx3_reachable : reachable 4 4 16000000 port_rx3.
Proof.
  change port_rx3 with
    (env_apply 4 4 (IsrReceiveComplete 3)
       (env_apply 4 4 (IsrReceiveComplete 2)
          (env_apply 4 4 (IsrReceiveComplete 1) port_begun))).
  do 3 apply reach_env.
  apply (reach_fresh 4 4 16000000 0 1 0 0 [] 9600 0x03 board_begun).
  reflexivity.
Qed.

(** At 9600 baud and a calibration byte of -1 the register receives
    [6667 + (-6667) / 1024 = 6667 - 6]. *)
Lemma begin_programs_baud_register_witness :
  exists b', begin 4 4 16000000 [] 9600 0x03 board_trimmed = Some b' /\
             BAUD (_hwserial_module (Serial b')) = 6661.
Proof.
  eexists. split; [reflexivity|].
  assert (H1 : 0 <= 16000000) by discriminate.
  assert (H2 : 8 * 16000000 < 2 ^ 31) by reflexivity.
  assert (H3 : 0 < 9600 < 2 ^ 32) by (split; reflexivity).
  assert (H4 : 0 <= spec_baud_register 16000000 9600
                      (int8 (SIGROW_OSC16ERR5V board_trimmed)) < 2 ^ 16)
    by (split; [discriminate | reflexivity]).
  destruct (begin_programs_baud_register 4 4 16000000 [] 9600 0x03 board_trimmed _
              eq_refl) as (_ & Hexact).
  rewrite (Hexact H1 H2 H3 H4).
  reflexivity.
Defined.

(** At 300 baud the divisor is 213333, which does not fit the 16-bit
    register: [begin] stores its low 16 bits. *)
Lemma baud_register_truncated_at_300_baud :
  option_map (fun b' => BAUD (_hwserial_module (Serial b')))
    (begin 4 4 16000000 [] 300 0x03 board_new) = Some 16725 /\
  spec_baud_register 16000000 300 (int8 (SIGROW_OSC16ERR5V board_new)) = 213333.
Proof. split; reflexivity. Qed.

(** A second [begin] on a port that has written: the queued byte is sent,
    the two unread bytes are dropped. *)
Lemma begin_leaves_indices_to_end_witness :
  begin 4 4 16000000 [drain_turn; drain_turn] 9600 0x03 board_AB_rx2
    = Some board_AB_rx2_rebegun /\
  available 4 (Serial board_AB_rx2_rebegun) = 0 /\
  _tx_buffer_head (Serial board_AB_rx2_rebegun)
    = _tx_buffer_tail (Serial board_AB_rx2_rebegun).
Proof.
  assert (Hb : begin 4 4 16000000 [drain_turn; drain_turn] 9600 0x03 board_AB_rx2
               = Some board_AB_rx2_rebegun) by reflexivity.
  destruct (begin_leaves_indices_to_end 4 4 16000000 size4_pos size4_int
              size4_pos size4_int _ _ _ _ _ Hb) as (_ & Hw).
  destruct (Hw eq_refl) as (_ & Ha & Hempty).
  split; [exact Hb|]. split; [exact Ha|].
  apply Hempty. intros _. reflexivity.
Defined.

(** A second [begin] on a begun port that has received three bytes and
    written none: the three bytes are still there to be read. *)
Lemma begin_keeps_unread_bytes_when_unwritten :
  option_map (fun b' => (available 4 (Serial b'),
                         _rx_buffer_head (Serial b'), _rx_buffer_tail (Serial b')))
    (begin 4 4 16000000 [] 9600 0x03 board_rx3) = Some (3, 3, 0).
Proof. reflexivity. Qed.

Lemma begin_ends_first_when_written_witness :
  exists t_ended,
    end_ 4 4 [drain_turn; drain_turn] (Serial board_AB_rx2) = Some t_ended /\
    bit_is_set (CTRLB (_hwserial_module t_ended)) USART_TXEN_bm = false /\
    _rx_buffer_head t_ended = _rx_buffer_tail t_ended /\
    board_AB_rx2_rebegun = begin_critical 16000000 9600 0x03 (set_Serial t_ended board_AB_rx2).
Proof.
  destruct (begin_ends_first_when_written 4 4 16000000 size4_pos size4_int
              [drain_turn; drain_turn] 9600 0x03 board_AB_rx2) as (Hw & _).
  destruct (Hw eq_refl board_AB_rx2_rebegun eq_refl)
    as (t_flushed & t_ended & _ & _ & _ & He & _ & Htx & Hrx & _ & Hb).
  exists t_ended. split; [exact He|]. split; [exact Htx|]. split; [exact Hrx|]. exact Hb.
Defined.

(** The port is enabled and [begin] is called again, but nothing was
    written: no [end] runs, the receiver is never disabled and the
    unread bytes are kept. *)
Lemma begin_without_end_when_unwritten :
  bit_is_set (CTRLB (_hwserial_module (Serial board_rx3))) USART_RXEN_bm = true /\
  bit_is_set (CTRLB (_hwserial_module (Serial board_rx3))) USART_TXEN_bm = true /\
  begin 4 4 16000000 [] 9600 0x03 board_rx3
    = Some (begin_critical 16000000 9600 0x03 board_rx3) /\
  _rx_buffer_head (Serial (begin_critical 16000000 9600 0x03 board_rx3)) = 3 /\
  _rx_buffer_tail (Serial (begin_critical 16000000 9600 0x03 board_rx3)) = 0.
Proof. repeat split. Qed.

(** ** The receive side: available, peek, read *)

Section ReceiveSide.

Variable SERIAL_RX_BUFFER_SIZE : Z.
Local Abbreviation M := SERIAL_RX_BUFFER_SIZE.

Hypothesis RX_SIZE_pos : 0 < M.
Hypothesis RX_SIZE_int : M <= 32767.

Lemma array_get_byte a i : bytes a -> 0 <= array_get a i <= 255.
Proof.
  intros Ha. unfold array_get.
  destruct (nth_in_or_default (Z.to_nat i) a 0) as [Hin | ->]; [|lia].
  unfold bytes in Ha. rewrite Forall_forall in Ha. apply Ha. assumption.
Qed.

Lemma rx_index_small x : 0 <= x < M -> rx_buffer_index_t M x = x.
Proof.
  intros Hx. unfold rx_buffer_index_t.
  destruct (256 <? M) eqn:E.
  - apply wrap_small. change (2 ^ 16) with 65536. lia.
  - apply Z.ltb_ge in E. apply wrap_small. change (2 ^ 8) with 256. lia.
Qed.

(** The cast in [read] applies to [tail + 1], before the remainder is
    taken; for an index inside the ring the outcome is [(tail + 1) mod M]
    all the same, also when a ring of 256 slots wraps the [uint8_t]. *)
Lemma rx_index_next tl :
  0 <= tl < M ->
  rx_buffer_index_t M (rx_buffer_index_t M (tl + 1) mod M) = (tl + 1) mod M.
Proof.
  intros Ht.
  assert (E : rx_buffer_index_t M (tl + 1) mod M = (tl + 1) mod M).
  { unfold rx_buffer_index_t. destruct (256 <? M) eqn:E.
    - unfold u16. rewrite wrap_small; [reflexivity|].
      change (2 ^ 16) with 65536. lia.
    - apply Z.ltb_ge in E. unfold u8, wrap. change (2 ^ 8) with 256.
      destruct (Z.eq_dec (tl + 1) 256) as [E1|E1].
      + assert (HM : M = 256) by lia. rewrite HM, E1. reflexivity.
      + rewrite (Z.mod_small (tl + 1) 256) by lia. reflexivity. }
  rewrite E. apply rx_index_small. apply Z.mod_pos_bound. assumption.
Qed.

Lemma rx_used_range t : 0 <= rx_used M t < M.
Proof. unfold rx_used. apply Z.mod_pos_bound. assumption. Qed.

Lemma rx_used_zero_iff t :
  rx_indices_ok M t ->
  (rx_used M t = 0 <-> _rx_buffer_head t = _rx_buffer_tail t).
Proof.
  intros [Hh Ht]. unfold rx_used. split; intros H.
  - destruct (Z_lt_le_dec (_rx_buffer_head t) (_rx_buffer_tail t)).
    + rewrite Z.mod_small in H by lia. lia.
    + replace (M + _rx_buffer_head t - _rx_buffer_tail t)
        with (_rx_buffer_head t - _rx_buffer_tail t + 1 * M) in H by lia.
      rewrite Z_mod_plus_full, Z.mod_small in H by lia. lia.
  - rewrite H. replace (M + _rx_buffer_tail t - _rx_buffer_tail t) with M by lia.
    apply Z_mod_same_full.
Qed.

Lemma available_is_rx_used t :
  rx_indices_ok M t -> available M t = rx_used M t.
Proof.
  intros [Hh Ht]. unfold available, rx_used, u16, int16.
  rewrite wrap_small by (change (2 ^ 16) with 65536; lia).
  pose proof (Z.mod_pos_bound (M + _rx_buffer_head t - _rx_buffer_tail t) M RX_SIZE_pos).
  apply swrap_small; [lia|]. change (2 ^ (16 - 1)) with 32768. lia.
Qed.

(** X1: with both RX indices inside the ring, [available] is the number
    of unread bytes: the length of the queue between [tail] and [head].
    It lies between 0 and [M - 1], and it is 0 exactly when the ring is
    empty. *)
Theorem available_counts_unread t :
  rx_indices_ok M t ->
  available M t = Z.of_nat (length (rx_queue M t)) /\
  0 <= available M t <= M - 1 /\
  (available M t = 0 <-> _rx_buffer_head t = _rx_buffer_tail t).
Proof.
  intros Hok. rewrite (available_is_rx_used t Hok).
  pose proof (rx_used_range t) as Hr.
  split; [|split].
  - unfold rx_queue. rewrite length_map, length_seq. lia.
  - lia.
  - apply rx_used_zero_iff. assumption.
Qed.

Lemma read_empty t :
  _rx_buffer_head t = _rx_buffer_tail t -> read M t = (t, -1).
Proof. intros E. unfold read. rewrite E, Z.eqb_refl. reflexivity. Qed.

Lemma read_nonempty t :
  rx_indices_ok M t -> _rx_buffer_head t <> _rx_buffer_tail t ->
  read M t =
  (set_rx_buffer_tail ((_rx_buffer_tail t + 1) mod M) t,
   array_get (_rx_buffer t) (_rx_buffer_tail t)).
Proof.
  intros [_ Ht] Hne. unfold read.
  destruct (Z.eqb_spec (_rx_buffer_head t) (_rx_buffer_tail t)); [contradiction|].
  cbv zeta. rewrite rx_index_next by assumption. reflexivity.
Qed.

(** X2: [read] answers -1 on an empty ring and changes nothing.  As the
    ring holds bytes, any other answer lies in 0..255, so -1 is returned
    exactly when nothing is unread. *)
Theorem read_minus_one_iff_empty t :
  bytes (_rx_buffer t) ->
  (_rx_buffer_head t = _rx_buffer_tail t -> read M t = (t, -1)) /\
  (_rx_buffer_head t <> _rx_buffer_tail t -> 0 <= snd (read M t) <= 255) /\
  (snd (read M t) = -1 <-> _rx_buffer_head t = _rx_buffer_tail t).
Proof.
  intros Hb.
  assert (Hne : _rx_buffer_head t <> _rx_buffer_tail t -> 0 <= snd (read M t) <= 255).
  { intros H. unfold read.
    destruct (Z.eqb_spec (_rx_buffer_head t) (_rx_buffer_tail t)); [contradiction|].
    cbn [snd]. apply array_get_byte. assumption. }
  split; [apply read_empty|]. split; [exact Hne|].
  split.
  - intros H. destruct (Z.eq_dec (_rx_buffer_head t) (_rx_buffer_tail t)); [assumption|].
    specialize (Hne n). lia.
  - intros E. rewrite (read_empty t E). reflexivity.
Qed.

Lemma rx_queue_pop t :
  rx_indices_ok M t -> _rx_buffer_head t <> _rx_buffer_tail t ->
  let t' := set_rx_buffer_tail ((_rx_buffer_tail t + 1) mod M) t in
  rx_used M t' = rx_used M t - 1 /\
  rx_queue M t = array_get (_rx_buffer t) (_rx_buffer_tail t) :: rx_queue M t'.
Proof.
  intros Hok Hne t'.
  assert (Hu : rx_used M t' = rx_used M t - 1).
  { subst t'. unfold rx_used. cbn. destruct Hok.
    apply tx_used_after_pop; assumption. }
  split; [exact Hu|].
  unfold rx_queue. rewrite Hu. subst t'. cbn [_rx_buffer _rx_buffer_tail set_rx_buffer_tail].
  assert (Hpos : 0 < rx_used M t).
  { pose proof (rx_used_range t). pose proof (rx_used_zero_iff t Hok). lia. }
  replace (Z.to_nat (rx_used M t)) with (S (Z.to_nat (rx_used M t - 1))) by lia.
  cbn [seq map]. f_equal.
  - f_equal. rewrite Z.add_0_r. destruct Hok. apply Z.mod_small. lia.
  - rewrite <- seq_shift, map_map. apply map_ext. intros k.
    f_equal. rewrite Zplus_mod_idemp_l. f_equal. lia.
Qed.

(** X3: on a non-empty ring [read] returns the oldest unread byte and
    removes just that byte: the queue loses its head, [available] drops
    by one, [tail] advances by one modulo the ring size, and nothing else
    of the object (registers, transmit ring, [head], the arrays) is
    touched. *)
Theorem read_pops_oldest_unread t :
  rx_indices_ok M t -> _rx_buffer_head t <> _rx_buffer_tail t ->
  let t' := fst (read M t) in
  let c := snd (read M t) in
  rx_queue M t = c :: rx_queue M t' /\
  available M t' = available M t - 1 /\
  rx_indices_ok M t' /\
  t' = set_rx_buffer_tail ((_rx_buffer_tail t + 1) mod M) t.
Proof.
  intros Hok Hne. rewrite (read_nonempty t Hok Hne). cbn [fst snd].
  destruct (rx_queue_pop t Hok Hne) as [Hu Hq].
  assert (Hok' : rx_indices_ok M
                   (set_rx_buffer_tail ((_rx_buffer_tail t + 1) mod M) t)).
  { destruct Hok as [Hh Ht]. split; cbn; [assumption|].
    apply Z.mod_pos_bound. assumption. }
  split; [exact Hq|]. split; [|split; [exact Hok' | reflexivity]].
  rewrite !available_is_rx_used by assumption. exact Hu.
Qed.

(** X4: [peek] returns what the next [read] will return: the oldest
    unread byte, or -1 when nothing is unread. *)
Theorem peek_is_next_read t :
  rx_indices_ok M t ->
  peek t = snd (read M t) /\ peek t = hd (-1) (rx_queue M t).
Proof.
  intros Hok.
  assert (E : peek t = snd (read M t)).
  { unfold peek, read.
    destruct (_rx_buffer_head t =? _rx_buffer_tail t); reflexivity. }
  split; [exact E|].
  destruct (Z.eq_dec (_rx_buffer_head t) (_rx_buffer_tail t)) as [He | Hne].
  - unfold peek, rx_queue. rewrite (proj2 (rx_used_zero_iff t Hok) He).
    rewrite He, Z.eqb_refl. reflexivity.
  - rewrite E, (read_nonempty t Hok Hne).
    destruct (rx_queue_pop t Hok Hne) as [_ ->]. reflexivity.
Qed.

Lemma read_n_queue n : forall t,
  rx_indices_ok M t -> Z.to_nat (rx_used M t) = n ->
  snd (read_n M n t) = rx_queue M t /\
  rx_indices_ok M (fst (read_n M n t)) /\
  _rx_buffer_head (fst (read_n M n t)) = _rx_buffer_tail (fst (read_n M n t)).
Proof.
  induction n as [|n IH]; intros t Hok Hn.
  - cbn [read_n fst snd]. pose proof (rx_used_range t) as Hr.
    assert (E : rx_used M t = 0) by lia.
    split; [|split; [assumption | apply rx_used_zero_iff; assumption]].
    unfold rx_queue. rewrite E. reflexivity.
  - assert (Hne : _rx_buffer_head t <> _rx_buffer_tail t).
    { intros E. apply (rx_used_zero_iff t Hok) in E. lia. }
    destruct (rx_queue_pop t Hok Hne) as [Hu Hq].
    cbn [read_n]. rewrite (read_nonempty t Hok Hne).
    set (t1 := set_rx_buffer_tail ((_rx_buffer_tail t + 1) mod M) t) in *.
    assert (Hok1 : rx_indices_ok M t1).
    { destruct Hok as [Hh Ht]. split; subst t1; cbn; [assumption|].
      apply Z.mod_pos_bound. assumption. }
    destruct (IH t1 Hok1 ltac:(lia)) as (Hs & Hok2 & He).
    destruct (read_n M n t1) as [t2 cs]. cbn [fst snd] in *.
    rewrite Hq, Hs. auto.
Qed.

(** X5: calling [read] as many times as [available] reports returns the
    unread bytes in arrival order and leaves the ring empty: [available]
    is then 0 and the next [read] answers -1. *)
Theorem read_n_drains_ring t :
  rx_indices_ok M t ->
  let n := Z.to_nat (available M t) in
  let t' := fst (read_n M n t) in
  snd (read_n M n t) = rx_queue M t /\
  available M t' = 0 /\
  read M t' = (t', -1).
Proof.
  intros Hok n t'. subst n t'. rewrite (available_is_rx_used t Hok).
  destruct (read_n_queue _ t Hok eq_refl) as (Hs & Hok' & He).
  split; [exact Hs|]. split.
  - rewrite available_is_rx_used by assumption.
    apply rx_used_zero_iff; assumption.
  - apply read_empty. assumption.
Qed.

(** X6: [Serial2_available], the predicate [serialEventRun] polls, is
    true exactly when the RX ring holds an unread byte. *)
Theorem Serial2_available_iff_unread t :
  rx_indices_ok M t ->
  (Serial2_available M t = true <-> _rx_buffer_head t <> _rx_buffer_tail t).
Proof.
  intros Hok. unfold Serial2_available.
  rewrite negb_true_iff, Z.eqb_neq, available_is_rx_used by assumption.
  pose proof (rx_used_zero_iff t Hok). tauto.
Qed.

End ReceiveSide.

(** ** The transmit stream: nothing is lost, nothing is reordered *)

Lemma list_set_length a : forall n v, length (list_set a n v) = length a.
Proof.
  induction a as [|x a IH]; intros [|n] v; cbn; auto.
Qed.

Lemma nth_list_set_same a : forall n v d,
  (n < length a)%nat -> nth n (list_set a n v) d = v.
Proof.
  induction a as [|x a IH]; intros [|n] v d H; cbn in *; try lia; auto.
  apply IH. lia.
Qed.

Lemma nth_list_set_other a : forall n m v d,
  n <> m -> nth m (list_set a n v) d = nth m a d.
Proof.
  induction a as [|x a IH]; intros [|n] [|m] v d H; cbn; auto; try congruence.
Qed.

Lemma array_get_set_same a i v :
  0 <= i -> (Z.to_nat i < length a)%nat -> array_get (array_set a i v) i = v.
Proof. intros. unfold array_get, array_set. apply nth_list_set_same. assumption. Qed.

Lemma array_get_set_other a i j v :
  0 <= i -> 0 <= j -> i <> j -> array_get (array_set a i v) j = array_get a j.
Proof.
  intros. unfold array_get, array_set. apply nth_list_set_other. lia.
Qed.

Section TransmitStream.

Variable SERIAL_TX_BUFFER_SIZE : Z.
Variable SERIAL_RX_BUFFER_SIZE : Z.
Local Abbreviation N := SERIAL_TX_BUFFER_SIZE.
Local Abbreviation M := SERIAL_RX_BUFFER_SIZE.

Hypothesis TX_SIZE_pos : 0 < N.
Hypothesis TX_SIZE_int : N <= 32767.

Lemma tx_used_after_push h tl :
  0 <= h < N -> 0 <= tl < N -> (h + 1) mod N <> tl ->
  (N + (h + 1) mod N - tl) mod N = (N + h - tl) mod N + 1.
Proof.
  intros Hh Ht Hne.
  destruct (Z.eq_dec (h + 1) N) as [E|E].
  - rewrite E, Z_mod_same_full in *.
    rewrite (Z.mod_small (N + 0 - tl)) by lia.
    replace (N + h - tl) with (h - tl + 1 * N) by lia.
    rewrite Z_mod_plus_full, Z.mod_small by lia. lia.
  - rewrite (Z.mod_small (h + 1)) in * by lia.
    destruct (Z_lt_le_dec h tl).
    + rewrite !Z.mod_small by lia. lia.
    + replace (N + (h + 1) - tl) with (h + 1 - tl + 1 * N) by lia.
      replace (N + h - tl) with (h - tl + 1 * N) by lia.
      rewrite !Z_mod_plus_full, !Z.mod_small by lia. lia.
Qed.

(** The slot [k] places after [tail] is the slot at [head] only for
    [k = tx_used]. *)
Lemma tx_slot_is_head h tl k :
  0 <= h < N -> 0 <= tl < N -> 0 <= k < N ->
  ((tl + k) mod N = h <-> k = (N + h - tl) mod N).
Proof.
  intros Hh Ht Hk.
  assert (H1 : (tl + k) mod N = tl + k /\ tl + k < N \/
               (tl + k) mod N = tl + k - N /\ N <= tl + k).
  { destruct (Z_lt_le_dec (tl + k) N); [left | right]; (split; [|assumption]).
    - apply Z.mod_small. lia.
    - replace (tl + k) with (tl + k - N + 1 * N) at 1 by lia.
      rewrite Z_mod_plus_full. apply Z.mod_small. lia. }
  assert (H2 : (N + h - tl) mod N = h - tl /\ tl <= h \/
               (N + h - tl) mod N = N + h - tl /\ h < tl).
  { destruct (Z_lt_le_dec h tl); [right | left]; (split; [|assumption]).
    - apply Z.mod_small. lia.
    - replace (N + h - tl) with (h - tl + 1 * N) by lia.
      rewrite Z_mod_plus_full. apply Z.mod_small. lia. }
  lia.
Qed.

Lemma tx_queue_same t t' :
  _tx_buffer t' = _tx_buffer t ->
  _tx_buffer_head t' = _tx_buffer_head t ->
  _tx_buffer_tail t' = _tx_buffer_tail t ->
  tx_queue N t' = tx_queue N t.
Proof. intros Hb Hh Ht. unfold tx_queue, tx_used. rewrite Hb, Hh, Ht. reflexivity. Qed.

Lemma tx_queue_empty t :
  tx_indices_ok N t -> _tx_buffer_head t = _tx_buffer_tail t -> tx_queue N t = [].
Proof.
  intros Hok E. unfold tx_queue.
  rewrite (proj2 (tx_used_zero_iff N t Hok) E). reflexivity.
Qed.

Lemma tx_queue_push t t' c :
  tx_indices_ok N t -> length (_tx_buffer t) = Z.to_nat N ->
  (_tx_buffer_head t + 1) mod N <> _tx_buffer_tail t ->
  _tx_buffer t' = array_set (_tx_buffer t) (_tx_buffer_head t) c ->
  _tx_buffer_head t' = (_tx_buffer_head t + 1) mod N ->
  _tx_buffer_tail t' = _tx_buffer_tail t ->
  tx_queue N t' = tx_queue N t ++ [c].
Proof.
  intros [Hh Ht] Hlen Hne Hb Hh' Ht'.
  assert (Hu : tx_used N t' = tx_used N t + 1).
  { unfold tx_used. rewrite Hh', Ht'. apply tx_used_after_push; assumption. }
  pose proof (tx_used_range N TX_SIZE_pos t) as Hr.
  pose proof (tx_used_range N TX_SIZE_pos t') as Hr'.
  unfold tx_queue. rewrite Hu, Hb, Ht'.
  replace (Z.to_nat (tx_used N t + 1)) with (S (Z.to_nat (tx_used N t))) by lia.
  rewrite seq_S, map_app. cbn [map Nat.add]. f_equal.
  - apply map_ext_in. intros k Hk. apply in_seq in Hk.
    apply array_get_set_other; [lia | apply Z.mod_pos_bound; lia |].
    intros E. symmetry in E.
    apply (tx_slot_is_head (_tx_buffer_head t) (_tx_buffer_tail t) (Z.of_nat k)) in E;
      try lia.
    unfold tx_used in *. lia.
  - f_equal.
    assert (E : (_tx_buffer_tail t + Z.of_nat (Z.to_nat (tx_used N t))) mod N
                = _tx_buffer_head t).
    { rewrite Z2Nat.id by lia. apply tx_slot_is_head; try lia. reflexivity. }
    rewrite E. apply array_get_set_same; lia.
Qed.

(** *** Every step keeps the stream *)

Lemma wf_stream_irq t :
  tx_wf N t -> DREIE t = true ->
  tx_wf N (_tx_data_empty_irq N t) /\
  tx_stream N (_tx_data_empty_irq N t) = tx_stream N t.
Proof.
  intros [Hinv Hlen] He.
  destruct (irq_frame N t) as (_ & Hb & _).
  destruct (irq_data N t) as (_ & Hw).
  split; [split; [apply inv_irq; assumption | rewrite Hb; assumption]|].
  pose proof Hinv as (Hok & Hie & _).
  assert (Hne : _tx_buffer_head t <> _tx_buffer_tail t).
  { rewrite He in Hie. symmetry in Hie. apply negb_true_iff in Hie.
    apply Z.eqb_neq. assumption. }
  destruct (tx_queue_pop N TX_SIZE_pos TX_SIZE_int t Hok Hne) as [_ Hq].
  unfold tx_stream. rewrite Hw, Hq, <- app_assoc. reflexivity.
Qed.

Lemma wf_stream_poll t :
  tx_wf N t ->
  tx_wf N (_poll_tx_data_empty N t) /\
  tx_stream N (_poll_tx_data_empty N t) = tx_stream N t.
Proof.
  intros H. destruct (poll_cases N t) as [(He & _ & ->) | (_ & ->)];
    auto using wf_stream_irq.
Qed.

Lemma wf_stream_env e t :
  tx_wf N t ->
  tx_wf N (env_apply N M e t) /\ tx_stream N (env_apply N M e t) = tx_stream N t.
Proof.
  intros H.
  assert (Hframe : forall t', tx_inv N t' ->
            _tx_buffer t' = _tx_buffer t -> _tx_buffer_head t' = _tx_buffer_head t ->
            _tx_buffer_tail t' = _tx_buffer_tail t ->
            tx_wire (_hwserial_module t') = tx_wire (_hwserial_module t) ->
            tx_wf N t' /\ tx_stream N t' = tx_stream N t).
  { intros t' Hi Hb Hh Ht Hw. destruct H as [_ Hlen]. split.
    - split; [assumption | rewrite Hb; assumption].
    - unfold tx_stream. rewrite Hw, (tx_queue_same t t' Hb Hh Ht). reflexivity. }
  pose proof (inv_env N M TX_SIZE_pos TX_SIZE_int e t (proj1 H)) as Hi.
  destruct e; cbn [env_apply] in *.
  - apply Hframe; [assumption | | | |];
      destruct t as [[ca cb cc st bd td wire] ? ? ? ? ? ? h tl ? ?]; reflexivity.
  - destruct (DREIF t); [|auto].
    apply Hframe; [assumption | | | |];
      destruct t as [[ca cb cc st bd td wire] ? ? ? ? ? ? h tl ? ?]; reflexivity.
  - apply wf_stream_poll. assumption.
  - destruct (bit_is_set _ _); [|auto].
    apply Hframe; [assumption | | | |]; unfold _rx_complete_irq;
      match goal with |- context [if ?c then _ else _] => destruct c end; reflexivity.
Qed.

Lemma wf_stream_env_run es : forall t,
  tx_wf N t ->
  tx_wf N (env_run N M es t) /\ tx_stream N (env_run N M es t) = tx_stream N t.
Proof.
  unfold env_run. induction es as [|e es IH]; intros t H; cbn [fold_left]; [auto|].
  destruct (wf_stream_env e t H) as [H1 E1].
  destruct (IH _ H1) as [H2 E2]. split; [assumption | congruence].
Qed.

Lemma wf_stream_spin_turn b t :
  tx_wf N t ->
  tx_wf N (spin_turn N M b t) /\ tx_stream N (spin_turn N M b t) = tx_stream N t.
Proof.
  intros H. unfold spin_turn.
  destruct (wf_stream_env_run (fst b) t H) as [H1 E1].
  destruct (wf_stream_poll _ H1) as [H2 E2].
  destruct (wf_stream_env_run (snd b) _ H2) as [H3 E3].
  split; [assumption | congruence].
Qed.

Lemma wf_stream_write_attempt c t t' r :
  tx_wf N t -> write_attempt N c t = (t', Some r) ->
  tx_wf N t' /\ tx_stream N t' = tx_stream N t ++ [c].
Proof.
  intros [Hinv Hlen] Ha.
  pose proof (inv_write_attempt N TX_SIZE_pos TX_SIZE_int c t Hinv) as Hinv'.
  rewrite Ha in Hinv'. cbn [fst] in Hinv'.
  pose proof Hinv as (Hok & Hie & _).
  destruct (negb (DREIE t) && DREIF t) eqn:Hg.
  - apply andb_true_iff in Hg. destruct Hg as [He Hf]. apply negb_true_iff in He.
    destruct (write_attempt_fast N c t He Hf)
      as (t1 & Ha1 & _ & Hw & _ & Hh & Ht & Hb & _).
    rewrite Ha in Ha1. injection Ha1 as <- _.
    split; [split; [assumption | rewrite Hb; assumption]|].
    assert (Hempty : _tx_buffer_head t = _tx_buffer_tail t).
    { rewrite He in Hie. symmetry in Hie. apply negb_false_iff in Hie.
      apply Z.eqb_eq. assumption. }
    unfold tx_stream.
    rewrite Hw, (tx_queue_same t t' Hb Hh Ht), (tx_queue_empty t Hok Hempty).
    rewrite !app_nil_r. reflexivity.
  - destruct (Z.eq_dec ((_tx_buffer_head t + 1) mod N) (_tx_buffer_tail t)) as [E|E].
    + rewrite (write_attempt_full N TX_SIZE_pos TX_SIZE_int c t Hg E) in Ha.
      discriminate.
    + destruct (write_attempt_buffered N TX_SIZE_pos TX_SIZE_int c t Hg E)
        as (t1 & Ha1 & Hb & Hh & Ht & _ & _ & _ & _ & _ & Hw).
      rewrite Ha in Ha1. injection Ha1 as <- _.
      split.
      * split; [assumption|]. rewrite Hb. unfold array_set.
        rewrite list_set_length. assumption.
      * unfold tx_stream.
        rewrite Hw, (tx_queue_push t t' c Hok Hlen E Hb Hh Ht), app_assoc.
        reflexivity.
Qed.

Lemma write_spin_stream c sched : forall t t' r,
  tx_wf N t -> write_spin N M c sched t = Some (t', r) ->
  tx_wf N t' /\ tx_stream N t' = tx_stream N t ++ [c].
Proof.
  induction sched as [|b rest IH]; intros t t' r Hwf; cbn [write_spin];
    destruct (write_attempt N c t) as [t1 [r1|]] eqn:Ha.
  - intros [= <- <-]. eapply wf_stream_write_attempt; eauto.
  - discriminate.
  - intros [= <- <-]. eapply wf_stream_write_attempt; eauto.
  - destruct (write_attempt_result N TX_SIZE_pos TX_SIZE_int c t) as [Hr | Hr];
      rewrite Ha in Hr; [discriminate|]. injection Hr as ->.
    intros H. destruct (wf_stream_spin_turn b t Hwf) as [H1 E1].
    destruct (IH _ _ _ H1 H) as [H2 E2]. split; [assumption | congruence].
Qed.

(** X7: the bytes handed to the transmitter followed by the bytes queued
    in the ring form one stream.  Whenever [write(c)] returns, on either
    path and after any amount of spinning, polling and interrupts, that
    stream has grown by exactly [c] at its end: no byte is dropped,
    duplicated or overtaken. *)
Theorem write_appends_to_stream c sched t t' r :
  tx_wf N t -> write N M c sched t = Some (t', r) ->
  tx_stream N t' = tx_stream N t ++ [c] /\ tx_wf N t'.
Proof.
  intros Hwf Hw. unfold write in Hw.
  destruct (write_spin_stream c sched t t' r Hwf Hw). auto.
Qed.

Lemma flush_spin_stream sched : forall t t',
  tx_wf N t -> flush_spin N M sched t = Some t' ->
  tx_wf N t' /\ tx_stream N t' = tx_stream N t /\ flush_waiting t' = false.
Proof.
  induction sched as [|b rest IH]; intros t t' Hwf; cbn [flush_spin];
    destruct (flush_waiting t) eqn:Hwt.
  - discriminate.
  - intros [= <-]. auto.
  - intros H. destruct (wf_stream_spin_turn b t Hwf) as [H1 E1].
    destruct (IH _ _ H1 H) as (H2 & E2 & Hn).
    split; [assumption|]. split; [congruence | assumption].
  - intros [= <-]. auto.
Qed.

(** X8: when [flush] returns on a port that has written, every byte that
    was queued has been handed to the transmitter, in order, and the
    ring is empty; in no case does [flush] change the stream. *)
Theorem flush_sends_the_queue sched t t' :
  tx_wf N t -> flush N M sched t = Some t' ->
  tx_stream N t' = tx_stream N t /\
  tx_wf N t' /\
  (_written t = true ->
   tx_queue N t' = [] /\
   tx_wire (_hwserial_module t') = tx_wire (_hwserial_module t) ++ tx_queue N t).
Proof.
  intros Hwf. unfold flush. destruct (_written t); cbn [negb].
  - intros H. destruct (flush_spin_stream sched t t' Hwf H) as (Hwf' & Hs & Hnw).
    split; [assumption|]. split; [assumption|]. intros _.
    destruct Hwf' as [(Hok & Hie & _) _].
    unfold flush_waiting in Hnw. apply orb_false_iff in Hnw. destruct Hnw as [He _].
    assert (Hq : tx_queue N t' = []).
    { apply tx_queue_empty; [assumption|].
      rewrite He in Hie. symmetry in Hie. apply negb_false_iff in Hie.
      apply Z.eqb_eq. assumption. }
    split; [assumption|].
    unfold tx_stream in Hs. rewrite Hq, app_nil_r in Hs. assumption.
  - intros [= <-]. split; [reflexivity|]. split; [assumption|]. intros; discriminate.
Qed.

End TransmitStream.

(** ** The life cycle: end, begin, and the states in between *)

Lemma u8_clear_twice x m :
  u8 (Z.land (u8 (Z.land x (Z.lnot m))) (Z.lnot m)) = u8 (Z.land x (Z.lnot m)).
Proof. bitwise. Qed.

Lemma end_critical_twice t : end_critical (end_critical t) = end_critical t.
Proof.
  destruct t as [[ca cb cc st bd td wire] ? ? ? ? ? ? h tl ? ?].
  unfold_uart. f_equal. f_equal; apply u8_clear_twice.
Qed.

Lemma end_critical_tx_frame t :
  let t' := end_critical t in
  _tx_buffer t' = _tx_buffer t /\
  tx_wire (_hwserial_module t') = tx_wire (_hwserial_module t) /\
  bit_is_set (CTRLA (_hwserial_module t')) USART_RXCIE_bm = false.
Proof.
  destruct t as [[ca cb cc st bd td wire] ? ? ? ? ? ? h tl ? ?].
  flag_bits. auto.
Qed.

Lemma CLK2X_testbit r : bit_is_set r USART_RXMODE_CLK2X_gc = Z.testbit r 1.
Proof. apply (bit_is_set_pow2 _ 1). lia. Qed.

Lemma begin_critical_post F_CPU baud config b :
  let t := Serial b in
  let b' := begin_critical F_CPU baud config b in
  let m' := _hwserial_module (Serial b') in
  bit_is_set (CTRLB m') USART_RXEN_bm = true /\
  bit_is_set (CTRLB m') USART_TXEN_bm = true /\
  bit_is_set (CTRLB m') USART_RXMODE_CLK2X_gc = false /\
  bit_is_set (CTRLA m') USART_RXCIE_bm = true /\
  CTRLC m' = u8 config /\
  tx_wire m' = tx_wire (_hwserial_module t) /\
  pin_calls b' =
    pin_calls b ++ [Call_pinMode (_hwserial_rx_pin t) INPUT_PULLUP;
                    Call_digitalWrite (_hwserial_tx_pin t) HIGH;
                    Call_pinMode (_hwserial_tx_pin t) OUTPUT].
Proof.
  destruct b as [[[ca cb cc st bd td wire] ? ? ? ? ? ? h tl ? ?] pm ? pc].
  unfold_uart. rewrite CLK2X_testbit.
  flag_bits. repeat split; auto.
  rewrite <- !app_assoc. reflexivity.
Qed.

Section Lifecycle.

Variable SERIAL_TX_BUFFER_SIZE : Z.
Variable SERIAL_RX_BUFFER_SIZE : Z.
Variable F_CPU : Z.
Local Abbreviation N := SERIAL_TX_BUFFER_SIZE.
Local Abbreviation M := SERIAL_RX_BUFFER_SIZE.

Hypothesis TX_SIZE_pos : 0 < N.
Hypothesis TX_SIZE_int : N <= 32767.
Hypothesis RX_SIZE_pos : 0 < M.
Hypothesis RX_SIZE_int : M <= 32767.

Lemma flush_wf_stream sched t t1 :
  tx_wf N t -> flush N M sched t = Some t1 ->
  tx_wf N t1 /\ tx_stream N t1 = tx_stream N t /\
  (_written t1 = false \/ flush_waiting t1 = false) /\
  (_written t = true -> _tx_buffer_head t1 = _tx_buffer_tail t1).
Proof.
  intros Hwf. unfold flush. destruct (_written t) eqn:Hw; cbn [negb].
  - intros H.
    destruct (flush_spin_stream N M TX_SIZE_pos TX_SIZE_int sched t t1 Hwf H)
      as (Hwf' & Hs & Hnw).
    split; [assumption|]. split; [assumption|]. split; [auto|].
    intros _. destruct Hwf' as [(_ & Hie & _) _].
    unfold flush_waiting in Hnw. apply orb_false_iff in Hnw. destruct Hnw as [He _].
    rewrite He in Hie. symmetry in Hie. apply negb_false_iff in Hie.
    apply Z.eqb_eq. assumption.
  - intros [= <-]. split; [assumption|]. split; [reflexivity|]. split; [auto|].
    intros; discriminate.
Qed.

Lemma end_cases sched t t' :
  end_ N M sched t = Some t' ->
  exists t1, flush N M sched t = Some t1 /\ t' = end_critical t1.
Proof.
  unfold end_. destruct (flush N M sched t) as [t1|]; [|discriminate].
  intros [= <-]. eauto.
Qed.

Lemma end_critical_wf_stream t :
  tx_wf N t -> _written t = false \/ flush_waiting t = false ->
  tx_wf N (end_critical t) /\ tx_stream N (end_critical t) = tx_stream N t.
Proof.
  intros [Hinv Hlen] Hpre.
  destruct (end_critical_tx_frame t) as (Hb & Hw & _).
  destruct (end_critical_effect t) as (_ & _ & _ & _ & Hh & Ht & _).
  split.
  - split; [apply inv_end_critical; assumption | rewrite Hb; assumption].
  - unfold tx_stream. rewrite Hw, (tx_queue_same N t (end_critical t) Hb Hh Ht).
    reflexivity.
Qed.

Lemma end_wf_stream sched t t' :
  tx_wf N t -> end_ N M sched t = Some t' ->
  tx_wf N t' /\ tx_stream N t' = tx_stream N t /\
  (_written t = true -> _tx_buffer_head t' = _tx_buffer_tail t').
Proof.
  intros Hwf He. destruct (end_cases _ _ _ He) as (t1 & Hfl & ->).
  destruct (flush_wf_stream _ _ _ Hwf Hfl) as (Hwf1 & Hs1 & Hpre & Hempty).
  destruct (end_critical_wf_stream t1 Hwf1 Hpre) as (Hwf2 & Hs2).
  destruct (end_critical_effect t1) as (_ & _ & _ & _ & Hh & Ht & _).
  split; [assumption|]. split; [congruence|].
  intros Hw. rewrite Hh, Ht. auto.
Qed.

(** X9: once [end] has returned the port is silent: receiver,
    transmitter and both interrupts are disabled, [_written] is false,
    and whatever was unread is gone, so [available] is 0 and [peek] and
    [read] answer -1.  The transmit stream is as it was, and on a port
    that had written every queued byte was handed to the transmitter
    before the port was switched off. *)
Theorem end_leaves_port_silent sched t t' :
  end_ N M sched t = Some t' ->
  available M t' = 0 /\ peek t' = -1 /\ read M t' = (t', -1) /\
  _written t' = false /\ DREIE t' = false /\
  bit_is_set (CTRLA (_hwserial_module t')) USART_RXCIE_bm = false /\
  bit_is_set (CTRLB (_hwserial_module t')) USART_RXEN_bm = false /\
  bit_is_set (CTRLB (_hwserial_module t')) USART_TXEN_bm = false /\
  (tx_wf N t ->
   tx_stream N t' = tx_stream N t /\
   (_written t = true -> tx_queue N t' = [])).
Proof.
  intros He. pose proof He as He0.
  destruct (end_cases _ _ _ He) as (t1 & Hfl & ->).
  destruct (end_critical_effect t1)
    as (Hd & _ & _ & Hw & _ & _ & Hrh & Hrt & Hrx & Htx).
  destruct (end_critical_tx_frame t1) as (_ & _ & Hrxc).
  assert (Hrx0 : _rx_buffer_head (end_critical t1) = _rx_buffer_tail (end_critical t1))
    by congruence.
  split; [apply available_empty; assumption|].
  split; [unfold peek; rewrite Hrx0, Z.eqb_refl; reflexivity|].
  split; [unfold read; rewrite Hrx0, Z.eqb_refl; reflexivity|].
  repeat (split; [assumption|]).
  intros Hwf. destruct (end_wf_stream _ _ _ Hwf He0) as (Hwf' & Hs & Hempty).
  split; [assumption|]. intros Hwr.
  apply tx_queue_empty; [apply Hwf' | auto].
Qed.

(** X10: [end] is idempotent.  A second [end] straight after the first
    does not wait, whatever the transmitter does, and changes nothing. *)
Theorem end_twice_is_end sched t t' :
  end_ N M sched t = Some t' ->
  forall sched', end_ N M sched' t' = Some t'.
Proof.
  intros He sched'. destruct (end_cases _ _ _ He) as (t1 & _ & ->).
  unfold end_, flush.
  destruct (end_critical_effect t1) as (_ & _ & _ & Hw & _).
  rewrite Hw. cbn [negb]. rewrite end_critical_twice. reflexivity.
Qed.

Lemma begin_wf_stream sched baud config b b' :
  tx_wf N (Serial b) -> begin N M F_CPU sched baud config b = Some b' ->
  tx_wf N (Serial b') /\ tx_stream N (Serial b') = tx_stream N (Serial b) /\
  (_written (Serial b) = true ->
   _tx_buffer_head (Serial b') = _tx_buffer_tail (Serial b')).
Proof.
  intros Hwf Hb.
  assert (Hcrit : forall b0, tx_wf N (Serial b0) ->
            tx_wf N (Serial (begin_critical F_CPU baud config b0)) /\
            tx_stream N (Serial (begin_critical F_CPU baud config b0))
              = tx_stream N (Serial b0)).
  { intros b0 [Hinv Hlen].
    destruct (begin_critical_effect F_CPU baud config b0)
      as (_ & _ & _ & Hh & Ht & _ & _ & Hbuf & _).
    destruct (begin_critical_post F_CPU baud config b0) as (_ & _ & _ & _ & _ & Hw & _).
    split.
    - split; [apply inv_begin_critical; assumption | rewrite Hbuf; assumption].
    - unfold tx_stream. rewrite Hw, (tx_queue_same N _ _ Hbuf Hh Ht). reflexivity. }
  destruct (begin_cases _ _ _ _ _ _ _ _ Hb) as [(Hw & ->) | (Hw & t1 & _ & _ & He & ->)].
  - destruct (Hcrit b Hwf) as [H1 H2]. rewrite Hw.
    split; [assumption|]. split; [assumption|]. intros; discriminate.
  - destruct (end_wf_stream _ _ _ Hwf He) as (Hwf1 & Hs1 & Hempty).
    destruct (Hcrit (set_Serial (end_critical t1) b) Hwf1) as [H1 H2].
    cbn [Serial set_Serial] in H2.
    destruct (begin_critical_effect F_CPU baud config (set_Serial (end_critical t1) b))
      as (_ & _ & _ & Hh & Ht & _).
    cbn [Serial set_Serial] in Hh, Ht.
    split; [assumption|]. split; [congruence|].
    intros _. rewrite Hh, Ht. auto.
Qed.

(** X11: when [begin] returns, the receiver, the transmitter and the
    receive-complete interrupt are enabled, double-speed mode is off,
    [CTRLC] holds the low byte of [config], and [_written] is false.  The
    wiring layer was called exactly three times, in this order: RX pin to
    input with pull-up, TX pin driven high, TX pin to output.  The
    transmit stream is untouched; on a port that had written, the bytes
    still queued were all handed to the transmitter first. *)
Theorem begin_enables_port sched baud config b b' :
  begin N M F_CPU sched baud config b = Some b' ->
  let m' := _hwserial_module (Serial b') in
  bit_is_set (CTRLB m') USART_RXEN_bm = true /\
  bit_is_set (CTRLB m') USART_TXEN_bm = true /\
  bit_is_set (CTRLB m') USART_RXMODE_CLK2X_gc = false /\
  bit_is_set (CTRLA m') USART_RXCIE_bm = true /\
  CTRLC m' = u8 config /\
  _written (Serial b') = false /\
  pin_calls b' =
    pin_calls b ++ [Call_pinMode (_hwserial_rx_pin (Serial b)) INPUT_PULLUP;
                    Call_digitalWrite (_hwserial_tx_pin (Serial b)) HIGH;
                    Call_pinMode (_hwserial_tx_pin (Serial b)) OUTPUT] /\
  (tx_wf N (Serial b) ->
   tx_stream N (Serial b') = tx_stream N (Serial b) /\
   (_written (Serial b) = true -> tx_queue N (Serial b') = [])).
Proof.
  intros Hb m'. subst m'. pose proof Hb as Hb0.
  assert (E : exists b0, b' = begin_critical F_CPU baud config b0 /\
                         _written (Serial b0) = false /\
                         pin_calls b0 = pin_calls b /\
                         _hwserial_rx_pin (Serial b0) = _hwserial_rx_pin (Serial b) /\
                         _hwserial_tx_pin (Serial b0) = _hwserial_tx_pin (Serial b)).
  { destruct (begin_cases _ _ _ _ _ _ _ _ Hb) as [(Hw & ->) | (_ & t1 & Hsp & _ & _ & ->)].
    - exists b. auto.
    - eexists. split; [reflexivity|]. cbn [Serial set_Serial pin_calls].
      split; [reflexivity|]. split; [reflexivity|].
      assert (Hpins : forall s u u', flush_spin N M s u = Some u' ->
                _hwserial_rx_pin u' = _hwserial_rx_pin u /\
                _hwserial_tx_pin u' = _hwserial_tx_pin u).
      { clear. induction s as [|x s IH]; intros u u'; cbn [flush_spin];
          destruct (flush_waiting u); try discriminate; try (intros [= <-]; auto).
        intros H. apply IH in H. destruct H as [-> ->].
        assert (Hpoll : forall v, _hwserial_rx_pin (_poll_tx_data_empty N v) = _hwserial_rx_pin v /\
                                  _hwserial_tx_pin (_poll_tx_data_empty N v) = _hwserial_tx_pin v).
        { intros v. unfold _poll_tx_data_empty, _tx_data_empty_irq.
          destruct (DREIE v && DREIF v); [|auto].
          match goal with |- context [if ?c then _ else _] => destruct c end; auto. }
        assert (Henv : forall es v, _hwserial_rx_pin (env_run N M es v) = _hwserial_rx_pin v /\
                                    _hwserial_tx_pin (env_run N M es v) = _hwserial_tx_pin v).
        { unfold env_run. induction es as [|e es IHe]; intros v; cbn [fold_left]; [auto|].
          destruct (IHe (env_apply N M e v)) as [-> ->].
          destruct e; cbn [env_apply].
          - auto.
          - destruct (DREIF v); auto.
          - apply Hpoll.
          - destruct (bit_is_set _ _); [|auto]. unfold _rx_complete_irq.
            match goal with |- context [if ?c then _ else _] => destruct c end; auto. }
        unfold spin_turn.
        destruct (Henv (snd x) (_poll_tx_data_empty N (env_run N M (fst x) u))) as [-> ->].
        destruct (Hpoll (env_run N M (fst x) u)) as [-> ->].
        apply Henv. }
      destruct (Hpins _ _ _ Hsp) as [<- <-]. auto. }
  destruct E as (b0 & -> & Hw0 & Hpc & Hrp & Htp).
  destruct (begin_critical_post F_CPU baud config b0)
    as (H1 & H2 & H3 & H4 & H5 & _ & H7).
  destruct (begin_critical_effect F_CPU baud config b0) as (_ & _ & Hw1 & _).
  cbv zeta in Hw1. rewrite Hw0 in Hw1. rewrite Hpc, Hrp, Htp in H7.
  repeat (split; [assumption|]).
  intros Hwf. destruct (begin_wf_stream _ _ _ _ _ Hwf Hb0) as (Hwf' & Hs & Hempty).
  split; [assumption|]. intros Hwr.
  apply tx_queue_empty; [apply Hwf' | auto].
Qed.

Lemma new_wf rx_pin tx_pin mux : tx_wf N (UartClass_new N M rx_pin tx_pin mux).
Proof.
  split; [apply inv_new; assumption|].
  cbn. apply repeat_length.
Qed.

Lemma reachable_wf t : reachable N M F_CPU t -> tx_wf N t.
Proof.
  induction 1 as [rx_pin tx_pin mux osc sched baud config b' Hb
                 | t c sched t' r _ IH Hw
                 | t _ IH He Hf
                 | t _ IH | t e _ IH
                 | t sched t' _ IH Hf
                 | t sched t' _ IH He
                 | b sched baud config b' _ IH Hb].
  - eapply begin_wf_stream; [|exact Hb]. apply new_wf.
  - eapply write_spin_stream; eauto.
  - apply wf_stream_irq; assumption.
  - apply wf_stream_poll; assumption.
  - apply wf_stream_env; assumption.
  - eapply flush_wf_stream; eauto.
  - eapply end_wf_stream; eauto.
  - eapply begin_wf_stream; eauto.
Qed.

(** X12: in every reachable state both TX indices lie inside the TX
    array, so neither the store at [head] in [write] nor the load at
    [tail] in the handler ever leaves it, and at most [N - 1] bytes are
    queued. *)
Theorem reachable_tx_accesses_in_bounds t :
  reachable N M F_CPU t ->
  (Z.to_nat (_tx_buffer_head t) < length (_tx_buffer t))%nat /\
  (Z.to_nat (_tx_buffer_tail t) < length (_tx_buffer t))%nat /\
  0 <= _tx_buffer_head t < N /\ 0 <= _tx_buffer_tail t < N /\
  Z.of_nat (length (tx_queue N t)) <= N - 1.
Proof.
  intros Hr. destruct (reachable_wf t Hr) as [((Hh & Ht) & _) Hlen].
  rewrite Hlen. repeat split; try lia.
  unfold tx_queue. rewrite length_map, length_seq.
  pose proof (tx_used_range N TX_SIZE_pos t). lia.
Qed.

End Lifecycle.

(** ** Back-pressure: when write returns at once and when it waits *)

Section Backpressure.

Variable SERIAL_TX_BUFFER_SIZE : Z.
Variable SERIAL_RX_BUFFER_SIZE : Z.
Local Abbreviation N := SERIAL_TX_BUFFER_SIZE.
Local Abbreviation M := SERIAL_RX_BUFFER_SIZE.

Hypothesis TX_SIZE_pos : 0 < N.
Hypothesis TX_SIZE_int : N <= 32767.

Lemma availableForWrite_eq t :
  tx_indices_ok N t -> availableForWrite N t = N - 1 - tx_used N t.
Proof.
  intros [Hh Ht]. unfold availableForWrite, tx_used, int16.
  destruct (Z.leb_spec (_tx_buffer_tail t) (_tx_buffer_head t)).
  - replace (N + _tx_buffer_head t - _tx_buffer_tail t)
      with (_tx_buffer_head t - _tx_buffer_tail t + 1 * N) by lia.
    rewrite Z_mod_plus_full, Z.mod_small by lia.
    rewrite swrap_small; [lia | lia |]. change (2 ^ (16 - 1)) with 32768. lia.
  - rewrite Z.mod_small by lia.
    rewrite swrap_small; [lia | lia |]. change (2 ^ (16 - 1)) with 32768. lia.
Qed.

(** The test for a full ring in [write] and the count of
    [availableForWrite] agree. *)
Lemma ring_full_iff t :
  tx_indices_ok N t ->
  ((_tx_buffer_head t + 1) mod N = _tx_buffer_tail t <-> availableForWrite N t = 0).
Proof.
  intros Hok. rewrite (availableForWrite_eq t Hok). destruct Hok as [Hh Ht].
  unfold tx_used.
  assert (H1 : (_tx_buffer_head t + 1) mod N = _tx_buffer_head t + 1
               /\ _tx_buffer_head t + 1 < N \/
               (_tx_buffer_head t + 1) mod N = 0 /\ _tx_buffer_head t + 1 = N).
  { destruct (Z.eq_dec (_tx_buffer_head t + 1) N) as [E|E]; [right | left].
    - split; [|assumption]. rewrite E. apply Z_mod_same_full.
    - split; [|lia]. apply Z.mod_small. lia. }
  assert (H2 : (N + _tx_buffer_head t - _tx_buffer_tail t) mod N
               = _tx_buffer_head t - _tx_buffer_tail t
               /\ _tx_buffer_tail t <= _tx_buffer_head t \/
               (N + _tx_buffer_head t - _tx_buffer_tail t) mod N
               = N + _tx_buffer_head t - _tx_buffer_tail t
               /\ _tx_buffer_head t < _tx_buffer_tail t).
  { destruct (Z_lt_le_dec (_tx_buffer_head t) (_tx_buffer_tail t)); [right | left];
      (split; [|assumption]).
    - apply Z.mod_small. lia.
    - replace (N + _tx_buffer_head t - _tx_buffer_tail t)
        with (_tx_buffer_head t - _tx_buffer_tail t + 1 * N) by lia.
      rewrite Z_mod_plus_full. apply Z.mod_small. lia. }
  lia.
Qed.

(** X13: if [availableForWrite] reports room, [write] returns 1 without
    waiting for the environment.  On the fast path the room is as
    before; through the ring it is one slot less. *)
Theorem write_returns_at_once_with_room c sched t :
  tx_indices_ok N t -> 0 < availableForWrite N t ->
  exists t', write N M c sched t = Some (t', 1) /\
    write_attempt N c t = (t', Some 1) /\
    tx_indices_ok N t' /\
    (DREIE t = false -> DREIF t = true ->
     availableForWrite N t' = availableForWrite N t) /\
    (DREIE t = true \/ DREIF t = false ->
     availableForWrite N t' = availableForWrite N t - 1).
Proof.
  intros Hok Hroom. pose proof Hok as [Hh Ht].
  assert (Hnf : (_tx_buffer_head t + 1) mod N <> _tx_buffer_tail t).
  { intros E. apply (ring_full_iff t Hok) in E. lia. }
  destruct (negb (DREIE t) && DREIF t) eqn:Hg.
  - apply andb_true_iff in Hg. destruct Hg as [He Hf]. apply negb_true_iff in He.
    destruct (write_attempt_fast N c t He Hf)
      as (t' & Ha & _ & _ & _ & Hh' & Ht' & _).
    exists t'. split; [apply write_spin_done; assumption|]. split; [assumption|].
    assert (Hok' : tx_indices_ok N t') by (unfold tx_indices_ok; rewrite Hh', Ht'; auto).
    split; [assumption|]. split.
    + intros _ _. unfold availableForWrite. rewrite Hh', Ht'. reflexivity.
    + intros [H | H]; congruence.
  - destruct (write_attempt_buffered N TX_SIZE_pos TX_SIZE_int c t Hg Hnf)
      as (t' & Ha & _ & Hh' & Ht' & _).
    exists t'. split; [apply write_spin_done; assumption|]. split; [assumption|].
    assert (Hok' : tx_indices_ok N t').
    { unfold tx_indices_ok. rewrite Hh', Ht'. split; [|assumption].
      apply Z.mod_pos_bound. assumption. }
    split; [assumption|]. split.
    + intros He Hf. rewrite He, Hf in Hg. discriminate.
    + intros _. rewrite !availableForWrite_eq by assumption.
      unfold tx_used. rewrite Hh', Ht'.
      rewrite tx_used_after_push by assumption. lia.
Qed.


End Backpressure.

(** ** The baud divisor *)

(** X15: for a clock with [8 * F_CPU] inside a [long] and a positive
    baud rate, the divisor [D] computed before calibration is the
    integer nearest to [4 * F_CPU / baud]: twice [D] times the baud rate
    misses [8 * F_CPU] by at most one baud rate.  Calibration moves the
    value by at most [D / 8], whatever the calibration byte.  A baud
    rate above [8 * F_CPU] yields 0. *)
Theorem baud_setting_bounds F_CPU baud sigrow :
  0 <= F_CPU -> 8 * F_CPU < 2 ^ 31 -> 0 < baud < 2 ^ 32 ->
  let D := baud_setting F_CPU baud 0 in
  (2 * D - 1) * baud <= 8 * F_CPU < (2 * D + 1) * baud /\
  D = (8 * F_CPU / baud + 1) / 2 /\
  (D < 2 ^ 24 -> D - D / 8 <= baud_setting F_CPU baud sigrow <= D + D / 8) /\
  (8 * F_CPU < baud -> baud_setting F_CPU baud sigrow = 0).
Proof.
  intros HF HF8 Hb.
  change (2 ^ 31) with 2147483648 in *. change (2 ^ 32) with 4294967296 in *.
  change (2 ^ 24) with 16777216.
  assert (Hq : 0 <= 8 * F_CPU / baud <= 8 * F_CPU).
  { split; [apply Z.div_pos; lia|].
    apply Z.div_le_upper_bound; [lia|]. nia. }
  set (D0 := (8 * F_CPU / baud + 1) / 2).
  assert (HD : 0 <= D0 < 1073741825).
  { subst D0. split; [apply Z.div_pos; lia|]. apply Z.div_lt_upper_bound; lia. }
  assert (Hgen : forall s, baud_setting F_CPU baud s
                           = int32 (D0 + Z.quot (int32 (D0 * int8 s)) 1024)).
  { intros s. unfold baud_setting. cbv zeta. unfold u32.
    rewrite (wrap_small 32 (8 * F_CPU)), (wrap_small 32 baud)
      by (change (2 ^ 32) with 4294967296; lia).
    rewrite (wrap_small 32 (8 * F_CPU / baud)), (wrap_small 32 (8 * F_CPU / baud + 1))
      by (change (2 ^ 32) with 4294967296; lia).
    fold D0. unfold int32. rewrite (swrap_small 32 D0)
      by (change (2 ^ (32 - 1)) with 2147483648; lia).
    reflexivity. }
  assert (E0 : baud_setting F_CPU baud 0 = D0).
  { rewrite Hgen. change (int8 0) with 0. rewrite Z.mul_0_r.
    change (int32 0) with 0. change (Z.quot 0 1024) with 0. rewrite Z.add_0_r.
    apply swrap_small; [lia|]. change (2 ^ (32 - 1)) with 2147483648. lia. }
  cbv zeta. rewrite E0.
  split; [|split; [reflexivity|split]].
  - subst D0.
    pose proof (Z.div_mod (8 * F_CPU) baud ltac:(lia)) as Hdm.
    pose proof (Z.mod_pos_bound (8 * F_CPU) baud ltac:(lia)) as Hmb.
    pose proof (Z.div_mod (8 * F_CPU / baud + 1) 2 ltac:(lia)) as Hdm2.
    pose proof (Z.mod_pos_bound (8 * F_CPU / baud + 1) 2 ltac:(lia)) as Hmb2.
    nia.
  - intros HDs. rewrite Hgen.
    pose proof (int8_range sigrow) as Ht. set (trim := int8 sigrow) in *.
    assert (Hp : -128 * D0 <= D0 * trim <= 127 * D0) by nia.
    unfold int32. rewrite (swrap_small 32 (D0 * trim))
      by (change (2 ^ (32 - 1)) with 2147483648; lia).
    assert (Hc : - (D0 / 8) <= Z.quot (D0 * trim) 1024 <= D0 / 8).
    { revert Hp. generalize (D0 * trim). intros p Hp.
      Z.to_euclidean_division_equations. lia. }
    rewrite swrap_small; [lia | lia |].
    change (2 ^ (32 - 1)) with 2147483648.
    assert (0 <= D0 / 8 <= D0) by (Z.to_euclidean_division_equations; lia). lia.
  - intros Hhigh. rewrite Hgen.
    assert (EZ : D0 = 0).
    { subst D0. rewrite (Z.div_small (8 * F_CPU) baud) by lia. reflexivity. }
    rewrite EZ. rewrite Z.mul_0_l. reflexivity.
Qed.

(** ** serialEventRun *)

(** X16: a pass of [serialEventRun] in which no participating port
    with both hooks linked reports unread data calls no handler and
    leaves everything as it was, whatever the handlers would do. *)
Theorem serialEventRun_idle {W : Type} (h0 h1 h2 h3 : serial_hook W) (w : W) :
  (forall h, In h [h0; h1; h2; h3] ->
     HAVE_HWSERIAL h = true ->
     forall available_n serialEvent_n,
       hook_available h = Some available_n ->
       hook_serialEvent h = Some serialEvent_n ->
       available_n w = false) ->
  serialEventRun h0 h1 h2 h3 w = w.
Proof.
  intros Hidle.
  assert (Hstep : forall h, In h [h0; h1; h2; h3] -> serialEvent_step h w = w).
  { intros h Hin. unfold serialEvent_step.
    destruct (HAVE_HWSERIAL h) eqn:Hh; [|reflexivity].
    destruct (hook_available h) as [a|] eqn:Ha; [|reflexivity].
    destruct (hook_serialEvent h) as [e|] eqn:He; [|reflexivity].
    rewrite (Hidle h Hin Hh a e Ha He). reflexivity. }
  unfold serialEventRun.
  rewrite (Hstep h0), (Hstep h1), (Hstep h2), (Hstep h3); cbn; auto.
Qed.

(** ** The receive side, the stream and the life cycle on the small port *)

Lemma port_rx3_indices_ok : rx_indices_ok 4 port_rx3.
Proof. unfold rx_indices_ok. cbn. lia. Defined.

Lemma port_ABCD_reachable : reachable 4 4 16000000 port_ABCD.
Proof.
  apply (reach_write 4 4 16000000 port_ABC 68 [] port_ABCD 1); [|reflexivity].
  apply (reach_write 4 4 16000000 port_AB 67 [] port_ABC 1); [|reflexivity].
  exact port_AB_reachable.
Defined.

Lemma board_AB_rx2_wf : tx_wf 4 (Serial board_AB_rx2).
Proof.
  apply (reachable_wf 4 4 16000000 size4_pos size4_int).
  change (Serial board_AB_rx2) with
    (env_apply 4 4 (IsrReceiveComplete 2)
       (env_apply 4 4 (IsrReceiveComplete 1) port_AB)).
  do 2 apply reach_env. exact port_AB_reachable.
Defined.

Lemma available_counts_unread_witness :
  available 4 port_rx3 = Z.of_nat (length (rx_queue 4 port_rx3)) /\
  0 <= available 4 port_rx3 <= 4 - 1.
Proof.
  destruct (available_counts_unread 4 size4_pos size4_int port_rx3 port_rx3_indices_ok)
    as (Hlen & Hrange & _).
  split; [exact Hlen | exact Hrange].
Defined.

Lemma read_minus_one_iff_empty_witness :
  0 <= snd (read 4 port_rx3) <= 255 /\
  (snd (read 4 port_rx3) = -1 <-> _rx_buffer_head port_rx3 = _rx_buffer_tail port_rx3).
Proof.
  assert (Hb : bytes (_rx_buffer port_rx3)).
  { unfold bytes. cbn. repeat constructor; discriminate. }
  destruct (read_minus_one_iff_empty 4 port_rx3 Hb) as (_ & Hne & Hiff).
  split; [apply Hne; discriminate | exact Hiff].
Defined.

Lemma read_pops_oldest_unread_witness :
  rx_queue 4 port_rx3 = snd (read 4 port_rx3) :: rx_queue 4 (fst (read 4 port_rx3)) /\
  available 4 (fst (read 4 port_rx3)) = available 4 port_rx3 - 1.
Proof.
  assert (Hne : _rx_buffer_head port_rx3 <> _rx_buffer_tail port_rx3) by discriminate.
  destruct (read_pops_oldest_unread 4 size4_pos size4_int port_rx3
              port_rx3_indices_ok Hne) as (Hq & Ha & _).
  split; [exact Hq | exact Ha].
Defined.

Lemma peek_is_next_read_witness :
  peek port_rx3 = snd (read 4 port_rx3) /\ peek port_rx3 = hd (-1) (rx_queue 4 port_rx3).
Proof.
  exact (peek_is_next_read 4 size4_pos size4_int port_rx3 port_rx3_indices_ok).
Defined.

Example read_three_then_nothing :
  snd (read_n 4 5 port_rx3) = [1; 2; 3; -1; -1] /\
  peek port_rx3 = 1 /\ peek (fst (read_n 4 3 port_rx3)) = -1.
Proof. repeat split. Qed.

Lemma read_n_drains_ring_witness :
  snd (read_n 4 (Z.to_nat (available 4 port_rx3)) port_rx3) = rx_queue 4 port_rx3 /\
  available 4 (fst (read_n 4 (Z.to_nat (available 4 port_rx3)) port_rx3)) = 0.
Proof.
  destruct (read_n_drains_ring 4 size4_pos size4_int port_rx3 port_rx3_indices_ok)
    as (Hs & Ha & _).
  split; [exact Hs | exact Ha].
Defined.

Lemma Serial2_available_iff_unread_witness :
  Serial2_available 4 port_rx3 = true <->
  _rx_buffer_head port_rx3 <> _rx_buffer_tail port_rx3.
Proof.
  exact (Serial2_available_iff_unread 4 size4_pos size4_int port_rx3
           port_rx3_indices_ok).
Defined.

Lemma write_appends_to_stream_witness :
  tx_stream 4 port_ABC = tx_stream 4 port_AB ++ [67].
Proof.
  assert (Hwf : tx_wf 4 port_AB)
    by exact (reachable_wf 4 4 16000000 size4_pos size4_int port_AB port_AB_reachable).
  assert (Hw : write 4 4 67 [] port_AB = Some (port_ABC, 1)) by reflexivity.
  destruct (write_appends_to_stream 4 4 size4_pos size4_int 67 [] port_AB port_ABC 1
              Hwf Hw) as (Hs & _).
  exact Hs.
Defined.

Example stream_of_the_full_ring :
  tx_stream 4 port_ABCD = [65; 66; 67; 68] /\
  tx_wire (_hwserial_module port_ABCD) = [65] /\
  tx_queue 4 port_ABCD = [66; 67; 68].
Proof. repeat split. Qed.

Lemma flush_sends_the_queue_witness :
  tx_queue 4 port_AB_flushed = [] /\
  tx_wire (_hwserial_module port_AB_flushed)
    = tx_wire (_hwserial_module port_AB) ++ tx_queue 4 port_AB.
Proof.
  assert (Hwf : tx_wf 4 port_AB)
    by exact (reachable_wf 4 4 16000000 size4_pos size4_int port_AB port_AB_reachable).
  assert (Hf : flush 4 4 [drain_turn; drain_turn] port_AB = Some port_AB_flushed)
    by reflexivity.
  destruct (flush_sends_the_queue 4 4 size4_pos size4_int _ _ _ Hwf Hf) as (_ & _ & Hq).
  exact (Hq eq_refl).
Defined.

Lemma end_leaves_port_silent_witness :
  available 4 port_AB_rx2_ended = 0 /\
  read 4 port_AB_rx2_ended = (port_AB_rx2_ended, -1) /\
  tx_stream 4 port_AB_rx2_ended = tx_stream 4 (Serial board_AB_rx2) /\
  tx_queue 4 port_AB_rx2_ended = [].
Proof.
  assert (He : end_ 4 4 [drain_turn; drain_turn] (Serial board_AB_rx2)
               = Some port_AB_rx2_ended) by reflexivity.
  destruct (end_leaves_port_silent 4 4 size4_pos size4_int size4_pos size4_int _ _ _ He)
    as (Ha & _ & Hr & _ & _ & _ & _ & _ & Hs).
  destruct (Hs board_AB_rx2_wf) as (Hst & Hq).
  split; [exact Ha|]. split; [exact Hr|]. split; [exact Hst|]. exact (Hq eq_refl).
Defined.

Lemma end_twice_is_end_witness :
  end_ 4 4 [] port_AB_rx2_ended = Some port_AB_rx2_ended.
Proof.
  assert (He : end_ 4 4 [drain_turn; drain_turn] (Serial board_AB_rx2)
               = Some port_AB_rx2_ended) by reflexivity.
  exact (end_twice_is_end 4 4 _ _ _ He []).
Defined.

Lemma begin_enables_port_witness :
  bit_is_set (CTRLB (_hwserial_module (Serial board_AB_rx2_rebegun))) USART_TXEN_bm = true /\
  _written (Serial board_AB_rx2_rebegun) = false /\
  tx_stream 4 (Serial board_AB_rx2_rebegun) = tx_stream 4 (Serial board_AB_rx2).
Proof.
  assert (Hb : begin 4 4 16000000 [drain_turn; drain_turn] 9600 0x03 board_AB_rx2
               = Some board_AB_rx2_rebegun) by reflexivity.
  destruct (begin_enables_port 4 4 16000000 size4_pos size4_int _ _ _ _ _ Hb)
    as (_ & Htx & _ & _ & _ & Hw & _ & Hs).
  destruct (Hs board_AB_rx2_wf) as (Hst & _).
  split; [exact Htx|]. split; [exact Hw | exact Hst].
Defined.

Lemma reachable_tx_accesses_in_bounds_witness :
  (Z.to_nat (_tx_buffer_head port_ABCD) < length (_tx_buffer port_ABCD))%nat /\
  (Z.to_nat (_tx_buffer_tail port_ABCD) < length (_tx_buffer port_ABCD))%nat.
Proof.
  destruct (reachable_tx_accesses_in_bounds 4 4 16000000 size4_pos size4_int port_ABCD
              port_ABCD_reachable) as (Hh & Ht & _).
  split; [exact Hh | exact Ht].
Defined.

Lemma write_returns_at_once_with_room_witness :
  exists t', write 4 4 67 [] port_AB = Some (t', 1) /\
             availableForWrite 4 t' = availableForWrite 4 port_AB - 1.
Proof.
  assert (Hroom : 0 < availableForWrite 4 port_AB) by reflexivity.
  destruct (write_returns_at_once_with_room 4 4 size4_pos size4_int 67 [] port_AB
              port_AB_indices_ok Hroom) as (t' & Hw & _ & _ & _ & Hslow).
  exists t'. split; [exact Hw|]. apply Hslow. left. reflexivity.
Defined.


Lemma write_returns_once_drained_witness :
  exists t', write 4 4 69 [([HwDataRegisterEmptied], [])] port_ABCD = Some (t', 1).
Proof.
  assert (Hinv : tx_inv 4 port_ABCD)
    by exact (reachable_inv 4 4 16000000 size4_pos size4_int port_ABCD
                port_ABCD_reachable).
  assert (H2 : 2 <= 4) by discriminate.
  exact (write_returns_once_drained 4 4 size4_pos size4_int 69 [] port_ABCD Hinv H2).
Defined.

Lemma flush_returns_when_drained_witness :
  exists t',
    flush 4 4 (repeat ([HwDataRegisterEmptied; HwFrameComplete], [])
                      (S (Z.to_nat (tx_used 4 port_ABCD)))) port_ABCD = Some t'.
Proof.
  assert (Hinv : tx_inv 4 port_ABCD)
    by exact (reachable_inv 4 4 16000000 size4_pos size4_int port_ABCD
                port_ABCD_reachable).
  exact (flush_returns_when_drained 4 4 size4_pos size4_int port_ABCD Hinv).
Defined.

(** At 16 MHz, 9600 baud and a calibration byte of -1. *)
Lemma baud_setting_bounds_witness :
  (2 * baud_setting 16000000 9600 0 - 1) * 9600 <= 8 * 16000000
    < (2 * baud_setting 16000000 9600 0 + 1) * 9600 /\
  baud_setting 16000000 9600 0 - baud_setting 16000000 9600 0 / 8
    <= baud_setting 16000000 9600 255
    <= baud_setting 16000000 9600 0 + baud_setting 16000000 9600 0 / 8.
Proof.
  assert (H1 : 0 <= 16000000) by discriminate.
  assert (H2 : 8 * 16000000 < 2 ^ 31) by reflexivity.
  assert (H3 : 0 < 9600 < 2 ^ 32) by (split; reflexivity).
  destruct (baud_setting_bounds 16000000 9600 255 H1 H2 H3) as (Hnear & _ & Htrim & _).
  split; [exact Hnear|]. apply Htrim. reflexivity.
Defined.

Example baud_rate_too_high_gives_zero :
  baud_setting 16000000 200000000 0 = 0 /\ baud_setting 16000000 128000000 0 = 1.
Proof. split; reflexivity. Qed.

(** Nothing unread on [Serial2], the only port compiled in: the pass
    does nothing.  With three unread bytes the handler runs once. *)
Lemma serialEventRun_idle_witness :
  serialEventRun hook_absent hook_absent hook_Serial2 hook_absent port_begun = port_begun.
Proof.
  apply serialEventRun_idle.
  intros h Hin Hhave a e Ha He.
  cbn [In] in Hin. destruct Hin as [<- | [<- | [<- | [<- | []]]]];
    try discriminate Hhave.
  cbn in Ha. injection Ha as <-. reflexivity.
Defined.

Example serialEventRun_with_unread_bytes :
  available 4
    (serialEventRun hook_absent hook_absent hook_Serial2 hook_absent port_rx3) = 2.
Proof. reflexivity. Qed.
